(** * Audio-reactive effect engine: a shallow embedding and its properties

    The development follows the TypeScript sources of the visualizer:

    - [AudioEngine]           the band/energy extractor and the beat detector
                              (audio/AudioEngine.ts);
    - [InstrumentClassifier]  the instrument heuristic with its hold timer
                              (analysis/InstrumentClassifier.ts);
    - [CrystalSphere]         the effect lifecycle engine and the theme manager
                              (three/CrystalSphere.ts);
    - [SceneView]             the effect selector and its hold time
                              (three/SceneView.ts).

    Numbers.  The audio side is embedded over binary64 floats, which is what a
    JavaScript number is: the extractor divides by buffer lengths and the
    outcome for a zero length (0/0) matters.  The renderer side is embedded
    over exact rationals, and what it calls without defining it (Math.sin,
    Math.PI, the results of Math.random, Vector3.normalize and
    Vector3.applyAxisAngle) is a parameter of the embedding.  Its sums and
    countdowns are exact where the code rounds to doubles (and, for the
    positions of rift particles, to the floats of a [Float32Array]): what
    is stated of it holds tick by tick and over runs, and does not say at
    which tick a countdown crosses zero nor on which side of a threshold a
    rounded sum falls.  The effect selector, where the rounding of the
    combined energy decides the choice at a threshold, is embedded on
    doubles as well ([SceneViewDoubles]). *)

From Stdlib Require Import List ZArith QArith Floats Bool Lia Lqa.
From Stdlib Require Import Strings.Byte Qminmax Qround.
From Stdlib Require Strings.String.
From Stdlib Require Import Sorting.Permutation.
Import ListNotations.

Set Warnings "-inexact-float".

(* ================================================================== *)
(** * Part I: the embedding *)
(* ================================================================== *)

(** ** JavaScript Math on doubles *)

Module JSMath.

Open Scope float_scope.

(** [Math.max(a, b)]: NaN if either argument is NaN; of two zeros the
    positive one. *)
Definition max (a b : float) : float :=
  if is_nan a || is_nan b then nan
  else if a <? b then b
  else if b <? a then a
  else if get_sign a then b else a.

(** [Math.min(a, b)]: NaN if either argument is NaN; of two zeros the
    negative one. *)
Definition min (a b : float) : float :=
  if is_nan a || is_nan b then nan
  else if a <? b then a
  else if b <? a then b
  else if get_sign a then a else b.

(** An array length, or an index, used as a number. *)
Definition of_nat (n : nat) : float := of_uint63 (Uint63.of_Z (Z.of_nat n)).

(** An element of a [Uint8Array] used as a number. *)
Definition of_byte (b : byte) : float := of_nat (Byte.to_nat b).

(** [arr[i]] on a [Uint8Array]: out of range it is [undefined], which
    arithmetic turns into NaN. *)
Definition get (arr : list byte) (i : nat) : float :=
  match nth_error arr i with
  | Some b => of_byte b
  | None => nan
  end.

End JSMath.

(** ** audio/AudioEngine.ts *)

Module AudioEngine.

Open Scope float_scope.

(** [computeRmsFromFreq(freq)] *)
Definition computeRmsFromFreq (freq : list byte) : float :=
  let n := length freq in
  let sumSquares :=
    fold_left (fun acc i => let v := JSMath.get freq i / 255 in acc + v * v)
              (seq 0 n) 0 in
  sqrt (sumSquares / JSMath.of_nat n).

(** [average(arr, from, to)] *)
Definition average (arr : list byte) (from to : nat) : float :=
  let len := Nat.max 1 (to - from) in
  let sum := fold_left (fun acc i => acc + JSMath.get arr i)
                       (seq from (to - from)) 0 in
  sum / JSMath.of_nat len / 255.

Record Bands : Type := mkBands { low : float; mid : float; high : float }.

(** [computeBands(freq)] *)
Definition computeBands (freq : list byte) : Bands :=
  let n := length freq in
  let oneThird := (n / 3)%nat in
  {| low := average freq 0 oneThird;
     mid := average freq oneThird (2 * oneThird);
     high := average freq (2 * oneThird) n |}.

(** [computeInstantEnergy(timeData)] *)
Definition computeInstantEnergy (timeData : list byte) : float :=
  let n := length timeData in
  let sum :=
    fold_left (fun acc i => let s := (JSMath.get timeData i - 128) / 128 in
                            acc + s * s)
              (seq 0 n) 0 in
  sum / JSMath.of_nat n.

(** [averageArray(arr)] *)
Definition averageArray (arr : list float) : float :=
  match arr with
  | [] => 0
  | _ => fold_left (fun s v => s + v) arr 0 / JSMath.of_nat (length arr)
  end.

(** The fields of the engine that beat detection reads and writes. *)
Record State : Type := mkState {
  energyHistory : list float;
  lastBeatAt : float;
  beatSensitivity : float
}.

Definition maxEnergyHistory : nat := 43.

(** The state of a freshly constructed engine. *)
Definition init : State :=
  {| energyHistory := []; lastBeatAt := 0; beatSensitivity := 0.6 |}.

(** [setBeatSensitivity(s)] *)
Definition setBeatSensitivity (st : State) (s : float) : State :=
  {| energyHistory := energyHistory st;
     lastBeatAt := lastBeatAt st;
     beatSensitivity := JSMath.max 0 (JSMath.min 1 s) |}.

(** [energyHistory.push(energy)] followed by the eviction of the oldest
    sample when the bound is exceeded. *)
Definition pushEnergy (h : list float) (energy : float) : list float :=
  let h1 := h ++ [energy] in
  if (maxEnergyHistory <? length h1)%nat then tl h1 else h1.

(** The population variance loop of [detectBeat]. *)
Definition varianceOf (h : list float) (mean : float) : float :=
  fold_left (fun variance e => let d := e - mean in variance + d * d) h 0
  / JSMath.of_nat (length h).

(** [mean + k * std] as [detectBeat] computes it. *)
Definition threshold (h : list float) (sensitivity : float) : float :=
  let mean := averageArray h in
  let variance := varianceOf h mean in
  let std := sqrt (JSMath.max variance 1e-8) in
  let k := 2.0 - 1.5 * sensitivity in
  mean + k * std.

Definition minInterval : float := 0.12.

(** [detectBeat(energy, nowSec)]: the new state and [isBeat]. *)
Definition detectBeat (st : State) (energy nowSec : float) : State * bool :=
  let h := pushEnergy (energyHistory st) energy in
  if (length h <? 8)%nat then
    ({| energyHistory := h;
        lastBeatAt := lastBeatAt st;
        beatSensitivity := beatSensitivity st |}, false)
  else
    let canTrigger := minInterval <? nowSec - lastBeatAt st in
    let isBeat := canTrigger && (threshold h (beatSensitivity st) <? energy) in
    ({| energyHistory := h;
        lastBeatAt := if isBeat then nowSec else lastBeatAt st;
        beatSensitivity := beatSensitivity st |}, isBeat).

(** The detector run over a sequence of (energy, clock) samples. *)
Fixpoint detectBeats (st : State) (samples : list (float * float))
  : State * list bool :=
  match samples with
  | [] => (st, [])
  | (energy, nowSec) :: rest =>
      let (st1, b) := detectBeat st energy nowSec in
      let (st2, bs) := detectBeats st1 rest in
      (st2, b :: bs)
  end.

End AudioEngine.

(** ** Numbers of the renderer side: exact rationals *)

Module QNum.

Definition gtb (a b : Q) : bool := if Qlt_le_dec b a then true else false.
Definition ltb (a b : Q) : bool := if Qlt_le_dec a b then true else false.
Definition geb (a b : Q) : bool := if Qlt_le_dec a b then false else true.
Definition leb (a b : Q) : bool := if Qlt_le_dec b a then false else true.

Infix ">?" := gtb (at level 70, no associativity) : Q_scope.
Infix "<?" := ltb (at level 70, no associativity) : Q_scope.
Infix ">=?" := geb (at level 70, no associativity) : Q_scope.
Infix "<=?" := leb (at level 70, no associativity) : Q_scope.

End QNum.

(** ** analysis/InstrumentClassifier.ts *)

Module InstrumentClassifier.
Import QNum.
Open Scope Q_scope.

Inductive Instrument : Type := none | drums | bass | guitar.

Definition Instrument_eqb (a b : Instrument) : bool :=
  match a, b with
  | none, none | drums, drums | bass, bass | guitar, guitar => true
  | _, _ => false
  end.

Record State : Type := mkState {
  holdSeconds : Q;
  current : Instrument;
  lastSwitchAt : Q
}.

(** [new InstrumentClassifier(holdSeconds)] *)
Definition new (hold : Q) : State :=
  {| holdSeconds := hold; current := none; lastSwitchAt := 0 |}.

(** The arguments of one call of [update]. *)
Record Call : Type := mkCall {
  timeSec : Q;
  rms : Q;
  low : Q;
  mid : Q;
  high : Q;
  beat : bool
}.

(** [classifyInstant(rms, low, mid, high, beat)] *)
Definition classifyInstant (rms low mid high : Q) (beat : bool) : Instrument :=
  if beat && (high >? 0.5) && (mid <? 0.6) then drums
  else if (low >? 0.45) && (mid <? 0.35) then bass
  else if (mid >? 0.5) && (high <? 0.5) then guitar
  else if rms <? 0.08 then none
  else none.

(** [update(timeSec, rms, low, mid, high, beat)]: the new state and the
    returned label. *)
Definition update (st : State) (c : Call) : State * Instrument :=
  let proposed := classifyInstant (rms c) (low c) (mid c) (high c) (beat c) in
  if negb (Instrument_eqb proposed (current st))
     && (timeSec c - lastSwitchAt st >=? holdSeconds st)
  then
    ({| holdSeconds := holdSeconds st;
        current := proposed;
        lastSwitchAt := timeSec c |}, proposed)
  else (st, current st).

(** The states reached by a sequence of calls, one per call. *)
Fixpoint run (st : State) (calls : list Call) : list State :=
  match calls with
  | [] => []
  | c :: rest => let st1 := fst (update st c) in st1 :: run st1 rest
  end.

(** The labels returned by a sequence of calls. *)
Fixpoint labels (st : State) (calls : list Call) : list Instrument :=
  match calls with
  | [] => []
  | c :: rest => let (st1, l) := update st c in l :: labels st1 rest
  end.

End InstrumentClassifier.

(** ** three/CrystalSphere.ts

    A pool ([THREE.Group.children]) is the list of its instances in insertion
    order.  An instance carries the identity of its scene object, its
    [userData], its material opacity and the scale the update loops write.
    Colours, orientations, geometry parameters and the position of a spike
    (which moves along its world direction) are left out, and with the
    colours the theme argument of the emitters, which only picks them.
    Disposal of a geometry/material pair is recorded in a log of object
    identities. *)

Module CrystalSphere.
Import QNum.
Import Stdlib.Strings.String.
Open Scope Q_scope.

Inductive EffectState : Type := idle | resonance | prism | rift | spikes.

Definition EffectState_eqb (a b : EffectState) : bool :=
  match a, b with
  | idle, idle | resonance, resonance | prism, prism
  | rift, rift | spikes, spikes => true
  | _, _ => false
  end.

Record Vector3 : Type := mkVector3 { vx : Q; vy : Q; vz : Q }.

(** [a.add(b)] and [v.multiplyScalar(k)] *)
Definition add (a b : Vector3) : Vector3 :=
  mkVector3 (vx a + vx b) (vy a + vy b) (vz a + vz b).
Definition multiplyScalar (v : Vector3) (k : Q) : Vector3 :=
  mkVector3 (vx v * k) (vy v * k) (vz v * k).

(** What the engine calls and does not define: [Math.sin], [Math.PI], the
    successive results of [Math.random()], and two methods of
    [THREE.Vector3]. *)
Record Externals : Type := mkExternals {
  Math_sin : Q -> Q;
  Math_PI : Q;
  Math_random : nat -> Q;
  normalize : Vector3 -> Vector3;
  applyAxisAngle : Vector3 -> Vector3 -> Q -> Vector3
}.

Record CrystalTheme : Type := mkTheme {
  name : String.string;
  colors : list N;
  coreColor : N;
  edgeColor : N
}.

Definition themes : list CrystalTheme :=
  [ mkTheme "Crystal Resonance"%string [0x00ffff; 0x00aaff; 0x80aaff]%N
            0x00ffff%N 0x40a0ff%N;
    mkTheme "Prism Flare"%string
            [0xff8080; 0xffff80; 0x80ff80; 0x80ffff; 0x8080ff; 0xff80ff]%N
            0xffa0a0%N 0xffffff%N;
    mkTheme "Galactic Rift"%string [0x9400d3; 0xff00ff; 0x8a2be2]%N
            0xdda0dd%N 0x9370db%N;
    mkTheme "Solar Spikes"%string [0xffc107; 0xff5722; 0xff9800]%N
            0xffd54f%N 0xffb300%N ].

(** A resonance ring: [userData.life], [userData.delay], the uniform scale
    and the material opacity. *)
Record Ring : Type := mkRing {
  ringId : nat;
  ringLife : Q;
  ringDelay : Q;
  ringScale : Q;
  ringOpacity : Q
}.

(** A prism ray: [userData.life], [userData.phase], material opacity. *)
Record Ray : Type := mkRay {
  rayId : nat;
  rayLife : Q;
  rayPhase : Q;
  rayOpacity : Q
}.

(** One particle of a rift batch: its [userData] entry and its slot of the
    position attribute. *)
Record Particle : Type := mkParticle {
  life : Q;
  velocity : Vector3;
  rotationSpeed : Q;
  position : Vector3
}.

(** A rift batch: one [THREE.Points] object with its material opacity. *)
Record Batch : Type := mkBatch {
  batchId : nat;
  particles : list Particle;
  batchOpacity : Q
}.

(** A spike: its [userData], [scale.y] and material opacity. *)
Record Spike : Type := mkSpike {
  spikeId : nat;
  spikeLife : Q;
  speed : Q;
  seed : Q;
  baseLen : Q;
  spikeScaleY : Q;
  spikeOpacity : Q
}.

(** [effectGroups] *)
Record Pools : Type := mkPools {
  resonancePool : list Ring;
  prismPool : list Ray;
  riftPool : list Batch;
  spikesPool : list Spike
}.

Record State : Type := mkState {
  group : bool;              (* [this.group] has been created *)
  effectGroups : Pools;
  bloomStrength : Q;         (* [_bloomStrength] *)
  themeIndex : nat;
  activeEffect : EffectState;
  nextId : nat;              (* identity given to the next scene object *)
  randomCalls : nat;         (* calls of [Math.random()] made so far *)
  disposed : list nat;       (* objects whose geometry/material were disposed *)
  appliedThemes : list nat   (* calls of [applyTheme], by theme index *)
}.

(** The field initialisers of the class. *)
Definition new : State :=
  {| group := false;
     effectGroups := mkPools [] [] [] [];
     bloomStrength := 1.2;
     themeIndex := 0;
     activeEffect := idle;
     nextId := 0;
     randomCalls := 0;
     disposed := [];
     appliedThemes := [] |}.

Definition with_group (st : State) (g : bool) : State :=
  mkState g (effectGroups st) (bloomStrength st) (themeIndex st)
          (activeEffect st) (nextId st) (randomCalls st) (disposed st)
          (appliedThemes st).
Definition with_effectGroups (st : State) (p : Pools) : State :=
  mkState (group st) p (bloomStrength st) (themeIndex st)
          (activeEffect st) (nextId st) (randomCalls st) (disposed st)
          (appliedThemes st).
Definition with_bloomStrength (st : State) (b : Q) : State :=
  mkState (group st) (effectGroups st) b (themeIndex st)
          (activeEffect st) (nextId st) (randomCalls st) (disposed st)
          (appliedThemes st).
Definition with_themeIndex (st : State) (i : nat) : State :=
  mkState (group st) (effectGroups st) (bloomStrength st) i
          (activeEffect st) (nextId st) (randomCalls st) (disposed st)
          (appliedThemes st).
Definition with_activeEffect (st : State) (e : EffectState) : State :=
  mkState (group st) (effectGroups st) (bloomStrength st) (themeIndex st)
          e (nextId st) (randomCalls st) (disposed st) (appliedThemes st).
Definition with_nextId (st : State) (n : nat) : State :=
  mkState (group st) (effectGroups st) (bloomStrength st) (themeIndex st)
          (activeEffect st) n (randomCalls st) (disposed st)
          (appliedThemes st).
Definition with_randomCalls (st : State) (n : nat) : State :=
  mkState (group st) (effectGroups st) (bloomStrength st) (themeIndex st)
          (activeEffect st) (nextId st) n (disposed st) (appliedThemes st).
Definition with_disposed (st : State) (d : list nat) : State :=
  mkState (group st) (effectGroups st) (bloomStrength st) (themeIndex st)
          (activeEffect st) (nextId st) (randomCalls st) d (appliedThemes st).
Definition with_appliedThemes (st : State) (a : list nat) : State :=
  mkState (group st) (effectGroups st) (bloomStrength st) (themeIndex st)
          (activeEffect st) (nextId st) (randomCalls st) (disposed st) a.

Definition with_resonancePool (p : Pools) (l : list Ring) : Pools :=
  mkPools l (prismPool p) (riftPool p) (spikesPool p).
Definition with_prismPool (p : Pools) (l : list Ray) : Pools :=
  mkPools (resonancePool p) l (riftPool p) (spikesPool p).
Definition with_riftPool (p : Pools) (l : list Batch) : Pools :=
  mkPools (resonancePool p) (prismPool p) l (spikesPool p).
Definition with_spikesPool (p : Pools) (l : list Spike) : Pools :=
  mkPools (resonancePool p) (prismPool p) (riftPool p) l.

(** [applyTheme(theme)].  It returns at once unless the particles, the
    wireframe and the energy core all exist, and [init] never creates the
    energy core: only the call is recorded. *)
Definition applyTheme (st : State) (index : nat) : State :=
  with_appliedThemes st (appliedThemes st ++ [index]).

(** [init(scene, radius, icoDetail)] *)
Definition init (st : State) : State :=
  if group st then st
  else applyTheme (with_group st true) (themeIndex st).

(** [setThemeByEnergyInstrument(energy, instrument)] *)
Definition setThemeByEnergyInstrument
  (st : State) (energy : Q) (instrument : InstrumentClassifier.Instrument)
  : State :=
  let idx :=
    match instrument with
    | InstrumentClassifier.bass => 0%nat
    | InstrumentClassifier.guitar => 1%nat
    | InstrumentClassifier.drums => 2%nat
    | InstrumentClassifier.none => 0%nat
    end in
  let idx := if energy >? 0.35 then ((idx + 1) mod List.length themes)%nat
             else idx in
  if negb (idx =? themeIndex st)%nat
  then applyTheme (with_themeIndex st idx) idx
  else st.

(** *** Scene-graph helpers *)

(** [g.remove(obj)]: the first child with the identity of [obj] is spliced
    out of [g.children]. *)
Fixpoint remove {A : Type} (key : A -> nat) (id : nat) (children : list A)
  : list A :=
  match children with
  | [] => []
  | c :: rest => if (key c =? id)%nat then rest else c :: remove key id rest
  end.

(** The inner loop of [clearAllEffects] on one group: every object of a
    snapshot of the children is disposed and removed.  The result is the
    remaining children and the identities disposed, in order. *)
Definition clearGroup {A : Type} (key : A -> nat) (children : list A)
  : list A * list nat :=
  fold_left (fun acc obj => (remove key (key obj) (fst acc),
                             snd acc ++ [key obj]))
            children (children, []).

(** *** Emission helpers *)

(** [emitResonance(theme, rings)] *)
Definition emitResonance (st : State) (rings : nat) : State :=
  fold_left
    (fun s i =>
       let w := mkRing (nextId s) 1 (inject_Z (Z.of_nat i) * 0.06) 0.1 1 in
       let pools := effectGroups s in
       with_nextId
         (with_effectGroups s
            (with_resonancePool pools (resonancePool pools ++ [w])))
         (S (nextId s)))
    (seq 0 rings) st.

(** [emitPrism(theme, rays)] *)
Definition emitPrism (st : State) (rays : nat) : State :=
  fold_left
    (fun s (_ : nat) =>
       let ray := mkRay (nextId s) 1 0 0 in
       let pools := effectGroups s in
       with_nextId
         (with_effectGroups s
            (with_prismPool pools (prismPool pools ++ [ray])))
         (S (nextId s)))
    (seq 0 rays) st.

(** The [userData] entry pushed for one particle by [emitRift], reading
    six results of [Math.random()] from the [r]-th on; its position slot
    of the fresh [Float32Array] is zero. *)
Definition newParticle (ext : Externals) (r : nat) : Particle :=
  let random k := Math_random ext (r + k) in
  mkParticle
    (1.2 + random 0%nat * 1.2)
    (multiplyScalar
       (normalize ext (mkVector3 (random 1%nat - 0.5) (random 2%nat - 0.5)
                                 (random 3%nat - 0.5)))
       (random 4%nat * 3 + 1.5))
    ((random 5%nat - 0.5) * 0.04)
    (mkVector3 0 0 0).

(** [emitRift(theme, count)] *)
Definition emitRift (ext : Externals) (st : State) (count : nat) : State :=
  let r := randomCalls st in
  let uD := map (fun i => newParticle ext (r + 6 * i)) (seq 0 count) in
  let neb := mkBatch (nextId st) uD 1 in
  let pools := effectGroups st in
  with_randomCalls
    (with_nextId
       (with_effectGroups st (with_riftPool pools (riftPool pools ++ [neb])))
       (S (nextId st)))
    (r + 6 * count).

(** One spike of [createSpikes], reading three results of [Math.random()]
    from the [r]-th on (those drawn inside [randomDirection] are not
    counted). *)
Definition newSpike (ext : Externals) (id r : nat) (high : Q) : Spike :=
  let len := 0.6 + Math_random ext r * 1.1 + high * 0.8 in
  let speed := 0.35 + Math_random ext (r + 1) * 1.0 in
  let seed := Math_random ext (r + 2) in
  mkSpike id 1.0 speed seed len 1 0.0.

(** [createSpikes(count, low, mid, high)]; [low] and [mid] only tint. *)
Definition createSpikes
  (ext : Externals) (st : State) (count : nat) (low mid high : Q) : State :=
  fold_left
    (fun s (_ : nat) =>
       let spike := newSpike ext (nextId s) (randomCalls s) high in
       let pools := effectGroups s in
       with_randomCalls
         (with_nextId
            (with_effectGroups s
               (with_spikesPool pools (spikesPool pools ++ [spike])))
            (S (nextId s)))
         (randomCalls s + 3))
    (seq 0 count) st.

(** [triggerSpikesFromAudio(low, mid, high)] *)
Definition triggerSpikesFromAudio
  (ext : Externals) (st : State) (low mid high : Q) : State :=
  let intensity := Qmin 1 (low * 0.5 + mid * 0.8 + high * 1.0) in
  let count := Z.to_nat (Qfloor (12 + intensity * 48)) in
  createSpikes ext st count low mid high.

(** *** Exclusivity *)

(** [clearAllEffects()] *)
Definition clearAllEffects (st : State) : State :=
  let pools := effectGroups st in
  let g1 := clearGroup ringId (resonancePool pools) in
  let g2 := clearGroup rayId (prismPool pools) in
  let g3 := clearGroup batchId (riftPool pools) in
  let g4 := clearGroup spikeId (spikesPool pools) in
  with_activeEffect
    (with_disposed
       (with_effectGroups st (mkPools (fst g1) (fst g2) (fst g3) (fst g4)))
       (disposed st ++ snd g1 ++ snd g2 ++ snd g3 ++ snd g4))
    idle.

(** [triggerEffect(kind)] *)
Definition triggerEffect (ext : Externals) (st : State) (kind : EffectState)
  : State :=
  if negb (group st) then st
  else
    let st := clearAllEffects st in
    match kind with
    | resonance =>
        with_activeEffect (with_bloomStrength (emitResonance st 3) 1.3)
                          resonance
    | prism =>
        with_activeEffect (with_bloomStrength (emitPrism st 120) 1.35) prism
    | rift =>
        with_activeEffect (with_bloomStrength (emitRift ext st 2000) 1.6) rift
    | spikes =>
        with_activeEffect
          (with_bloomStrength (createSpikes ext st 36 0.2 0.2 0.2) 1.4) spikes
    | idle => st
    end.

(** [isAnyEffectActive()] *)
Definition isAnyEffectActive (st : State) : bool :=
  let pools := effectGroups st in
  (0 <? List.length (resonancePool pools))%nat
  || (0 <? List.length (prismPool pools))%nat
  || (0 <? List.length (riftPool pools))%nat
  || (0 <? List.length (spikesPool pools))%nat.

(** [setExclusiveEffect(kind)] *)
Definition setExclusiveEffect
  (ext : Externals) (st : State) (kind : EffectState) : State :=
  match kind with
  | idle => clearAllEffects st
  | _ =>
      if EffectState_eqb (activeEffect st) kind && isAnyEffectActive st
      then st
      else triggerEffect ext st kind
  end.

(** [getActiveEffect()] *)
Definition getActiveEffect (st : State) : EffectState := activeEffect st.

(** *** Animation *)

(** The body of the loop of [updateResonance] for one ring: the ring after
    the tick, and whether it survives. *)
Definition stepRing (ext : Externals) (dt : Q) (w : Ring) : Ring * bool :=
  if ringDelay w >? 0 then
    (mkRing (ringId w) (ringLife w) (ringDelay w - dt) (ringScale w)
            (ringOpacity w), true)
  else
    let life := ringLife w - dt * 0.6 in
    let p := 1 - life in
    (mkRing (ringId w) life (ringDelay w) (0.1 + p * 1.4)
            (Qmax 0 (Math_sin ext (life * Math_PI ext))),
     life >? 0).

(** The survivors of a stepped pool, and the identities of the others. *)
Definition survivors {A : Type} (stepped : list (A * bool)) : list A :=
  map fst (filter snd stepped).
Definition casualties {A : Type} (key : A -> nat) (stepped : list (A * bool))
  : list nat :=
  map (fun x => key (fst x)) (filter (fun x => negb (snd x)) stepped).

(** [updateResonance(dt)] *)
Definition updateResonance (ext : Externals) (st : State) (dt : Q) : State :=
  let pools := effectGroups st in
  match resonancePool pools with
  | [] => st
  | _ =>
      let stepped := map (stepRing ext dt) (resonancePool pools) in
      let st1 :=
        with_disposed
          (with_effectGroups st (with_resonancePool pools (survivors stepped)))
          (disposed st ++ casualties ringId stepped) in
      match survivors stepped with
      | [] => with_bloomStrength st1 1.2
      | _ => st1
      end
  end.

(** The body of the loop of [updatePrism] for one ray. *)
Definition stepRay (dt : Q) (r : Ray) : Ray * bool :=
  let phase := rayPhase r + dt * 3.5 in
  if phase <? 1 then
    (mkRay (rayId r) (rayLife r) phase phase, rayLife r >? 0)
  else
    let life := rayLife r - dt * 0.9 in
    (mkRay (rayId r) life phase (Qmax 0 life), life >? 0).

(** [updatePrism(dt)] *)
Definition updatePrism (st : State) (dt : Q) : State :=
  let pools := effectGroups st in
  match prismPool pools with
  | [] => st
  | _ =>
      let stepped := map (stepRay dt) (prismPool pools) in
      let st1 :=
        with_disposed
          (with_effectGroups st (with_prismPool pools (survivors stepped)))
          (disposed st ++ casualties rayId stepped) in
      match survivors stepped with
      | [] => with_bloomStrength st1 1.2
      | _ => st1
      end
  end.

(** The receiver and the arguments of the call [vec.applyAxisAngle(axis,
    angle)] that [updateRift] makes for a particle still alive: the position
    after the Euler step, the axis and the angle. *)
Definition riftRotation (dt : Q) (pd : Particle) : Vector3 * Vector3 * Q :=
  (add (position pd) (multiplyScalar (velocity pd) dt),
   velocity pd,
   rotationSpeed pd).

(** The body of the loop of [updateRift] for one particle. *)
Definition stepParticle (ext : Externals) (dt : Q) (pd : Particle) : Particle :=
  let life := life pd - dt in
  if life >? 0 then
    let '(vec, axis, angle) := riftRotation dt pd in
    mkParticle life (velocity pd) (rotationSpeed pd)
               (applyAxisAngle ext vec axis angle)
  else
    mkParticle life (velocity pd) (rotationSpeed pd) (position pd).

(** [updateRift(dt)]: only the first batch of the pool is animated. *)
Definition updateRift (ext : Externals) (st : State) (dt : Q) : State :=
  let pools := effectGroups st in
  match riftPool pools with
  | [] => st
  | neb :: rest =>
      let neb1 := mkBatch (batchId neb)
                          (map (stepParticle ext dt) (particles neb))
                          (batchOpacity neb - dt * 0.4) in
      if batchOpacity neb1 <=? 0 then
        with_bloomStrength
          (with_disposed
             (with_effectGroups st
                (with_riftPool pools (remove batchId (batchId neb1)
                                             (neb1 :: rest))))
             (disposed st ++ [batchId neb1]))
          1.2
      else
        with_effectGroups st (with_riftPool pools (neb1 :: rest))
  end.

(** The body of the loop of [updateSpikes] for one spike. *)
Definition stepSpike (ext : Externals) (dt time : Q) (s : Spike)
  : Spike * bool :=
  let life := spikeLife s - dt * 0.8 in
  let wobble := 0.85 + Math_sin ext (time * (1.2 + seed s * 2.0)) * 0.15 in
  let opacity := Qmin 1 (spikeOpacity s + dt * 2) in
  let opacity := Qmax 0 (Qmin 1 (Qmin opacity life)) in
  (mkSpike (spikeId s) life (speed s) (seed s) (baseLen s) wobble opacity,
   life >? 0).

(** [updateSpikes(dt, time)] *)
Definition updateSpikes (ext : Externals) (st : State) (dt time : Q) : State :=
  let pools := effectGroups st in
  match spikesPool pools with
  | [] => st
  | _ =>
      let stepped := map (stepSpike ext dt time) (spikesPool pools) in
      let st1 :=
        with_disposed
          (with_effectGroups st (with_spikesPool pools (survivors stepped)))
          (disposed st ++ casualties spikeId stepped) in
      match survivors stepped, activeEffect st with
      | [], spikes => with_bloomStrength st1 1.2
      | _, _ => st1
      end
  end.

(** [update(dt, time, low, mid, high, rms, beat)]; the idle rotation and
    the sparkle colours are not modelled. *)
Definition update (ext : Externals) (st : State) (dt time : Q) : State :=
  if negb (group st) then st
  else
    let st := updateResonance ext st dt in
    let st := updatePrism st dt in
    let st := updateRift ext st dt in
    updateSpikes ext st dt time.

(** *** Cycling *)

(** [order.indexOf(kind)]: the first index of [kind], or -1. *)
Fixpoint indexOf (l : list EffectState) (kind : EffectState) : Z :=
  match l with
  | [] => -1
  | x :: rest =>
      if EffectState_eqb x kind then 0
      else
        let i := indexOf rest kind in
        if (i <? 0)%Z then -1 else (i + 1)%Z
  end.

(** [triggerNextEffect()]; an index out of range would read [undefined],
    which [triggerEffect] treats like 'idle'. *)
Definition triggerNextEffect (ext : Externals) (st : State) : State :=
  let order := [resonance; prism; rift; spikes] in
  let next :=
    nth (Z.to_nat (Z.rem (indexOf order (activeEffect st) + 1)
                         (Z.of_nat (List.length order))))
        order idle in
  triggerEffect ext st next.

End CrystalSphere.

(** ** three/SceneView.ts *)

Module SceneView.
Import QNum.
Open Scope Q_scope.

Record State : Type := mkState {
  is3D : bool;               (* renderer, scene, camera and mesh exist *)
  crystal : option CrystalSphere.State;
  postfx : option Q;         (* bloom strength of the PostFX pass, if any *)
  lastRms : Q;
  lastLow : Q;
  lastMid : Q;
  lastHigh : Q;
  instrumentClassifier : InstrumentClassifier.State;
  currentInstrument : InstrumentClassifier.Instrument;
  lastEffectSwitchAt : Q;
  minHoldSeconds : Q
}.

(** The state after a constructor run in which WebGL is available. *)
Definition new : State :=
  {| is3D := true;
     crystal := Some (CrystalSphere.init CrystalSphere.new);
     postfx := Some 0.7;
     lastRms := 0; lastLow := 0; lastMid := 0; lastHigh := 0;
     instrumentClassifier := InstrumentClassifier.new 5;
     currentInstrument := InstrumentClassifier.none;
     lastEffectSwitchAt := 0;
     minHoldSeconds := 3.0 |}.

(** [chooseEffect(low, mid, high, rms, beat)] read over the exact
    rationals in which this model of the scene carries the audio
    features; [None] is [null].  The function on doubles, as the code
    computes it, is [SceneViewDoubles.chooseEffect]. *)
Definition chooseEffect (low mid high rms : Q) (beat : bool)
  : option CrystalSphere.EffectState :=
  let energy := low * 0.45 + mid * 0.35 + high * 0.2 + rms * 0.3 in
  if beat && (high >? 0.55) then Some CrystalSphere.spikes
  else if (high >? 0.6) && (mid >? 0.5) then Some CrystalSphere.prism
  else if (mid >? 0.55) && (low <? 0.4) then Some CrystalSphere.resonance
  else if low >? 0.55 then Some CrystalSphere.rift
  else if energy >? 0.5 then Some CrystalSphere.prism
  else if energy >? 0.35 then Some CrystalSphere.resonance
  else None.

(** The arguments of one call of [updateFromAudio], with the reading of
    [performance.now() * 0.001] made by the call.  An omitted [beat] reads
    as [false] in every use the method makes of it. *)
Record Frame : Type := mkFrame {
  now : Q;
  rms : Q;
  low : Q;
  mid : Q;
  high : Q;
  beat : bool
}.

(** What [updateFromAudio] does with the result [chosen] of
    [chooseEffect] at the clock reading [clock]: the crystal and the
    switch time stamp after it. *)
Definition applyChoice
  (ext : CrystalSphere.Externals) (c : CrystalSphere.State)
  (lastSwitch hold clock : Q) (chosen : option CrystalSphere.EffectState)
  : CrystalSphere.State * Q :=
  let canSwitch := clock - lastSwitch >? hold in
  match chosen with
  | Some kind =>
      if negb (CrystalSphere.EffectState_eqb
                 kind (CrystalSphere.getActiveEffect c))
      then
        if canSwitch
        then (CrystalSphere.setExclusiveEffect ext c kind, clock)
        else (c, lastSwitch)
      else (c, lastSwitch)
  | None => (c, lastSwitch)
  end.

(** The effect switch of [updateFromAudio]: the crystal and the switch
    time stamp after it. *)
Definition switchEffect
  (ext : CrystalSphere.Externals) (c : CrystalSphere.State)
  (lastSwitch hold : Q) (f : Frame) : CrystalSphere.State * Q :=
  applyChoice ext c lastSwitch hold (now f)
              (chooseEffect (low f) (mid f) (high f) (rms f) (beat f)).

(** The music-driven emissions of [updateFromAudio] that reinforce the
    active effect. *)
Definition reinforce
  (ext : CrystalSphere.Externals) (c : CrystalSphere.State) (f : Frame)
  : CrystalSphere.State :=
  let c :=
    if CrystalSphere.EffectState_eqb (CrystalSphere.getActiveEffect c)
                                     CrystalSphere.spikes
       && (beat f || (high f >? 0.5))
    then CrystalSphere.triggerSpikesFromAudio ext c (low f) (mid f) (high f)
    else c in
  match CrystalSphere.getActiveEffect c with
  | CrystalSphere.resonance =>
      if beat f || (mid f >? 0.55) then CrystalSphere.emitResonance c 2 else c
  | CrystalSphere.prism =>
      if high f >? 0.55 then CrystalSphere.emitPrism c 60 else c
  | CrystalSphere.rift =>
      if low f >? 0.55 then CrystalSphere.emitRift ext c 900 else c
  | _ => c
  end.

(** [updateFromAudio(rms, low, mid, high, beat)] *)
Definition updateFromAudio
  (ext : CrystalSphere.Externals) (st : State) (f : Frame) : State :=
  match crystal st with
  | None =>
      mkState (is3D st) None (postfx st) (rms f) (low f) (mid f) (high f)
              (instrumentClassifier st) (currentInstrument st)
              (lastEffectSwitchAt st) (minHoldSeconds st)
  | Some c =>
      let energy :=
        Qmin 1 (low f * 0.5 + mid f * 0.3 + high f * 0.2 + rms f * 0.3) in
      let c := CrystalSphere.setThemeByEnergyInstrument
                 c energy (currentInstrument st) in
      let (c, lastSwitch) :=
        switchEffect ext c (lastEffectSwitchAt st) (minHoldSeconds st) f in
      let c := reinforce ext c f in
      mkState (is3D st) (Some c)
              (match postfx st with
               | Some _ => Some (CrystalSphere.bloomStrength c)
               | None => None
               end)
              (rms f) (low f) (mid f) (high f)
              (instrumentClassifier st) (currentInstrument st)
              lastSwitch (minHoldSeconds st)
  end.

(** One run of [animate] at [t = (performance.now() - start) * 0.001]: the
    instrument is classified and the crystal animated; drawing is not
    modelled. *)
Definition animate
  (ext : CrystalSphere.Externals) (st : State) (t : Q) : State :=
  if is3D st then
    let (classifier, instrument) :=
      InstrumentClassifier.update
        (instrumentClassifier st)
        (InstrumentClassifier.mkCall t (lastRms st) (lastLow st) (lastMid st)
                                     (lastHigh st) (lastRms st >? 0.12)) in
    mkState (is3D st)
            (option_map (fun c => CrystalSphere.update ext c (1 / 60) t)
                        (crystal st))
            (postfx st) (lastRms st) (lastLow st) (lastMid st) (lastHigh st)
            classifier instrument (lastEffectSwitchAt st) (minHoldSeconds st)
  else st.

(** What drives a scene view: audio frames and animation frames. *)
Inductive Event : Type :=
| Audio (f : Frame)
| Animate (t : Q).

Definition step (ext : CrystalSphere.Externals) (st : State) (e : Event)
  : State :=
  match e with
  | Audio f => updateFromAudio ext st f
  | Animate t => animate ext st t
  end.

(** The clock reading an event carries. *)
Definition eventTime (e : Event) : Q :=
  match e with
  | Audio f => now f
  | Animate t => t
  end.

(** The states reached over a sequence of events, one per event. *)
Fixpoint run (ext : CrystalSphere.Externals) (st : State) (es : list Event)
  : list State :=
  match es with
  | [] => []
  | e :: rest => step ext st e :: run ext (step ext st e) rest
  end.

(** The active effect kind of the crystal, if there is a crystal. *)
Definition activeKind (st : State)
  : option CrystalSphere.EffectState :=
  option_map CrystalSphere.getActiveEffect (crystal st).

End SceneView.

(** [SceneView.chooseEffect] on binary64 numbers: the products and the
    sum of the combined energy round as the doubles of the code do. *)
Module SceneViewDoubles.
Import CrystalSphere.
Open Scope float_scope.

(** [chooseEffect(low, mid, high, rms, beat)]; [None] is [null]. *)
Definition chooseEffect (low mid high rms : float) (beat : bool)
  : option EffectState :=
  let energy := low * 0.45 + mid * 0.35 + high * 0.2 + rms * 0.3 in
  if beat && (0.55 <? high) then Some spikes
  else if (0.6 <? high) && (0.5 <? mid) then Some prism
  else if (0.55 <? mid) && (low <? 0.4) then Some resonance
  else if 0.55 <? low then Some rift
  else if 0.5 <? energy then Some prism
  else if 0.35 <? energy then Some resonance
  else None.

End SceneViewDoubles.

(** ** ui/presets.ts *)

Module Presets.
Import Stdlib.Strings.String.

Inductive PaletteName : Type := aurora | cosmic | solar.

Record VisualPreset : Type := mkPreset {
  id : string;
  name : string;
  palette : PaletteName;
  beatSensitivity : Q;
  starDensity : Q
}.

Definition PRESETS : list VisualPreset :=
  [ mkPreset "aurora" "Aurora" aurora 0.6 700;
    mkPreset "cosmic" "Cosmic Dust" cosmic 0.5 1200;
    mkPreset "solar" "Solar Flare" solar 0.7 900 ]%string.

(** [getPresetById(id)]; [None] stands for [null] and [undefined], which
    equal no preset id.  [PRESETS[0]] on an empty table would be
    [undefined]; the table is not empty. *)
Definition getPresetById (key : option string) : VisualPreset :=
  let found :=
    find (fun p => match key with
                   | Some k => String.eqb (id p) k
                   | None => false
                   end)
         PRESETS in
  match found with
  | Some p => p
  | None => nth 0 PRESETS (mkPreset "" "" aurora 0 0)
  end.

End Presets.

(* ================================================================== *)
(** * Part II: properties *)
(* ================================================================== *)

Module AudioEngineProps.
Import AudioEngine.
Open Scope float_scope.

(** *** Extractor *)

Example rms_of_full_scale :
  computeRmsFromFreq [xff; xff; xff] = 1.
Proof. reflexivity. Qed.

Example bands_of_ramp :
  computeBands [x00; x00; xff; xff; x33; x33; x00]
  = {| low := 0; mid := 1; high := 0.13333333333333333 |}.
Proof. vm_compute. reflexivity. Qed.

Example silence_has_no_energy :
  computeInstantEnergy (repeat x80 16) = 0
  /\ computeRmsFromFreq (repeat x00 16) = 0
  /\ computeBands (repeat x00 16) = {| low := 0; mid := 0; high := 0 |}.
Proof. repeat split; vm_compute; reflexivity. Qed.

(** The guard of [average] ([Math.max(1, to - from)]) and the one of
    [averageArray] ([arr.length === 0]) make both total on empty input. *)
Lemma average_empty_range (arr : list byte) (from : nat) :
  average arr from from = 0.
Proof.
  unfold average. rewrite Nat.sub_diag. reflexivity.
Qed.

Lemma averageArray_empty : averageArray [] = 0.
Proof. reflexivity. Qed.

(** C3.  On empty buffers only the three band energies are 0: the RMS proxy
    and the instantaneous energy divide an empty sum by the length 0 and are
    NaN, where the claim promises 0 for every output. *)
Theorem empty_buffers_rms_energy_nan :
  computeBands [] = {| low := 0; mid := 0; high := 0 |}
  /\ computeRmsFromFreq [] = nan
  /\ computeInstantEnergy [] = nan
  /\ is_nan (computeRmsFromFreq []) = true
  /\ (computeRmsFromFreq [] =? 0) = false
  /\ (computeInstantEnergy [] =? 0) = false.
Proof. repeat split; vm_compute; reflexivity. Qed.

(** *** Beat detector *)

(** Comparison of doubles, read through its specification. *)
Lemma SFcompare_antisym (x y : spec_float) :
  SFcompare y x = option_map CompOpp (SFcompare x y).
Proof.
  destruct x as [sx | sx | | sx mx ex], y as [sy | sy | | sy my ey]; simpl;
    try reflexivity;
    try (destruct sx; reflexivity);
    try (destruct sy; reflexivity);
    try (destruct sx, sy; reflexivity).
  destruct sx, sy; try reflexivity.
  - rewrite (Z.compare_antisym ex ey).
    destruct (ex ?= ey)%Z; simpl; try reflexivity.
    now rewrite Pos.compare_cont_antisym, ?CompOpp_involutive.
  - rewrite (Z.compare_antisym ex ey).
    destruct (ex ?= ey)%Z; simpl; try reflexivity.
    now rewrite Pos.compare_cont_antisym, ?CompOpp_involutive.
Qed.

Lemma SFcompare_defined (x y : spec_float) :
  x <> S754_nan -> y <> S754_nan -> SFcompare x y <> None.
Proof. destruct x, y; simpl; congruence. Qed.

Lemma not_nan_spec (s : float) : is_nan s = false -> Prim2SF s <> S754_nan.
Proof.
  unfold is_nan. rewrite FloatAxioms.eqb_spec.
  intros H Hn. rewrite Hn in H. discriminate.
Qed.

(** X5.  [setBeatSensitivity] clamps every number into [0, 1]: whatever
    is passed, short of NaN, the stored sensitivity is between 0 and 1. *)
Lemma setBeatSensitivity_clamped (st : State) (s : float) :
  is_nan s = false ->
  (0 <=? beatSensitivity (setBeatSensitivity st s)) = true
  /\ (beatSensitivity (setBeatSensitivity st s) <=? 1) = true.
Proof.
  intros Hs. cbn [setBeatSensitivity beatSensitivity].
  pose proof (not_nan_spec s Hs) as Hx.
  unfold JSMath.min. rewrite Hs.
  change (is_nan 1) with false. cbn [orb].
  change (get_sign 1) with false.
  destruct (1 <? s) eqn:E1.
  - split; reflexivity.
  - assert (Hm : (if s <? 1 then s else s) = s)
      by (destruct (s <? 1); reflexivity).
    rewrite Hm. unfold JSMath.max. rewrite Hs.
    change (is_nan 0) with false. cbn [orb]. change (get_sign 0) with false.
    destruct (0 <? s) eqn:E2.
    + split.
      * rewrite leb_spec. rewrite ltb_spec in E2.
        unfold SFleb, SFltb in *.
        destruct (SFcompare _ _) as [[| |] |]; congruence.
      * rewrite leb_spec. rewrite ltb_spec in E1.
        unfold SFleb, SFltb in *. rewrite SFcompare_antisym.
        assert (H1 : Prim2SF 1 <> S754_nan) by (vm_compute; discriminate).
        pose proof (SFcompare_defined _ _ H1 Hx) as Hd.
        destruct (SFcompare (Prim2SF 1) (Prim2SF s)) as [[| |] |]; simpl;
          congruence.
    + destruct (s <? 0); split; reflexivity.
Qed.

Example sensitivity_is_clamped :
  beatSensitivity (setBeatSensitivity init 1.7) = 1
  /\ beatSensitivity (setBeatSensitivity init (-3)) = 0
  /\ beatSensitivity (setBeatSensitivity init 0.25) = 0.25.
Proof. repeat split; vm_compute; reflexivity. Qed.

(** The history never grows beyond its bound. *)
Lemma pushEnergy_length (h : list float) (e : float) :
  (length h <= maxEnergyHistory)%nat ->
  (length (pushEnergy h e) <= maxEnergyHistory)%nat.
Proof.
  intros Hh. unfold pushEnergy.
  destruct (Nat.ltb_spec maxEnergyHistory (length (h ++ [e]))) as [Hlt | Hge].
  - rewrite length_tl, length_app. simpl. lia.
  - exact Hge.
Qed.

Lemma detectBeat_history (st : State) (energy nowSec : float) :
  energyHistory (fst (detectBeat st energy nowSec))
  = pushEnergy (energyHistory st) energy.
Proof.
  unfold detectBeat.
  destruct (length (pushEnergy (energyHistory st) energy) <? 8)%nat;
    reflexivity.
Qed.

Lemma detectBeats_history_bounded (samples : list (float * float)) :
  forall st : State,
    (length (energyHistory st) <= maxEnergyHistory)%nat ->
    (length (energyHistory (fst (detectBeats st samples)))
     <= maxEnergyHistory)%nat.
Proof.
  induction samples as [| [energy nowSec] rest IH]; intros st Hst.
  - exact Hst.
  - simpl.
    destruct (detectBeat st energy nowSec) as [st1 b] eqn:E1.
    specialize (IH st1).
    destruct (detectBeats st1 rest) as [st2 bs] eqn:E2. simpl in *.
    apply IH.
    replace st1 with (fst (detectBeat st energy nowSec)) by (rewrite E1; reflexivity).
    rewrite detectBeat_history. now apply pushEnergy_length.
Qed.

(** The firing condition as the source computes it: the debounce comparison
    is strict ([nowSec - lastBeatAt > minInterval]). *)
Definition firesInCode (st : State) (energy nowSec : float) : Prop :=
  let h := pushEnergy (energyHistory st) energy in
  (8 <= length h)%nat
  /\ (threshold h (beatSensitivity st) <? energy) = true
  /\ (minInterval <? nowSec - lastBeatAt st) = true.

(** The statistics in the words of the specification: the mean and the
    population variance of the history, both summed from the oldest
    sample on. *)
Definition total (l : list float) : float := fold_left (fun s v => s + v) l 0.

Definition mean (h : list float) : float :=
  total h / JSMath.of_nat (length h).

Definition variance (h : list float) : float :=
  total (map (fun e => (e - mean h) * (e - mean h)) h)
  / JSMath.of_nat (length h).

(** The firing condition in the words of the specification: the energy
    exceeds mean + k * stddev, with stddev = sqrt(max(variance, 1e-8)) and
    k = 2.0 - 1.5 * sensitivity, and "at least 120 ms have elapsed since
    the previous fired beat". *)
Definition firesAsClaimed (st : State) (energy nowSec : float) : Prop :=
  let h := pushEnergy (energyHistory st) energy in
  (8 <= length h)%nat
  /\ (mean h + (2.0 - 1.5 * beatSensitivity st)
               * sqrt (JSMath.max (variance h) 1e-8) <? energy) = true
  /\ (0.12 <=? nowSec - lastBeatAt st) = true.

(** Time-domain buffers: silence, a soft and a full-scale square wave. *)
Definition silent : list byte := repeat x80 8.
Definition soft : list byte := [x90; x70; x90; x70; x90; x70; x90; x70].
Definition loud : list byte := [x00; x00; x00; x00; x00; x00; x00; x00].

Example buffer_energies :
  computeInstantEnergy silent = 0
  /\ computeInstantEnergy soft = 0.015625
  /\ computeInstantEnergy loud = 1.
Proof. repeat split; vm_compute; reflexivity. Qed.

(** Seven silent ticks and a soft onset at 0.24 s, which fires. *)
Definition warmup : list (float * float) :=
  [(computeInstantEnergy silent, 0.02); (computeInstantEnergy silent, 0.04);
   (computeInstantEnergy silent, 0.06); (computeInstantEnergy silent, 0.08);
   (computeInstantEnergy silent, 0.1); (computeInstantEnergy silent, 0.12);
   (computeInstantEnergy silent, 0.14); (computeInstantEnergy soft, 0.24)].

Example warmup_fires_once :
  snd (detectBeats init warmup)
  = [false; false; false; false; false; false; false; true]
  /\ lastBeatAt (fst (detectBeats init warmup)) = 0.24.
Proof. split; vm_compute; reflexivity. Qed.

Definition afterWarmup : State := fst (detectBeats init warmup).

(** C1, as stated, fails: a loud sample at 0.36 s, which the doubles place
    exactly 0.12 s after the beat fired at 0.24 s, meets the claimed
    condition, and the detector reports no beat. *)
Lemma detectBeat_at_exactly_120ms :
  firesAsClaimed afterWarmup (computeInstantEnergy loud) 0.36
  /\ snd (detectBeat afterWarmup (computeInstantEnergy loud) 0.36) = false
  /\ ~ (snd (detectBeat afterWarmup (computeInstantEnergy loud) 0.36) = true
        <-> firesAsClaimed afterWarmup (computeInstantEnergy loud) 0.36).
Proof.
  assert (Hclaim : firesAsClaimed afterWarmup (computeInstantEnergy loud) 0.36).
  { unfold firesAsClaimed. cbv zeta.
    split; [vm_compute; lia |].
    split; vm_compute; reflexivity. }
  assert (Hcode :
    snd (detectBeat afterWarmup (computeInstantEnergy loud) 0.36) = false)
    by (vm_compute; reflexivity).
  split; [exact Hclaim |]. split; [exact Hcode |].
  intros [_ Hback]. pose proof (Hback Hclaim) as Hfire.
  rewrite Hcode in Hfire. discriminate Hfire.
Qed.

Lemma detectBeat_isBeat_iff (st : State) (energy nowSec : float) :
  snd (detectBeat st energy nowSec) = true <-> firesInCode st energy nowSec.
Proof.
  unfold firesInCode, detectBeat. cbv zeta.
  set (h := pushEnergy (energyHistory st) energy).
  destruct (Nat.ltb_spec (length h) 8) as [Hshort | Hlong]; simpl.
  - split; [discriminate | intros [Hlen _]; lia].
  - rewrite andb_true_iff. split.
    + intros [Hgap Hthr]. repeat split; [lia | exact Hthr | exact Hgap].
    + intros (_ & Hthr & Hgap). split; assumption.
Qed.

Lemma detectBeat_lastBeatAt (st : State) (energy nowSec : float) :
  lastBeatAt (fst (detectBeat st energy nowSec))
  = (if snd (detectBeat st energy nowSec) then nowSec else lastBeatAt st).
Proof.
  unfold detectBeat. cbv zeta.
  destruct (length (pushEnergy (energyHistory st) energy) <? 8)%nat;
    reflexivity.
Qed.

Lemma detectBeat_sensitivity (st : State) (energy nowSec : float) :
  beatSensitivity (fst (detectBeat st energy nowSec)) = beatSensitivity st.
Proof.
  unfold detectBeat. cbv zeta.
  destruct (length (pushEnergy (energyHistory st) energy) <? 8)%nat;
    reflexivity.
Qed.

(** The loops of [averageArray] and of the variance compute the mean and
    the variance of the specification. *)
Lemma fold_left_map_sum (f : float -> float) (l : list float) :
  forall acc,
    fold_left (fun s e => s + f e) l acc
    = fold_left (fun s v => s + v) (map f l) acc.
Proof.
  induction l as [| e l IH]; intros acc; simpl; [reflexivity | apply IH].
Qed.

Lemma averageArray_mean (h : list float) :
  h <> [] -> averageArray h = mean h.
Proof. destruct h; [contradiction | reflexivity]. Qed.

Lemma varianceOf_variance (h : list float) :
  varianceOf h (mean h) = variance h.
Proof.
  unfold varianceOf, variance, total. cbv zeta.
  now rewrite (fold_left_map_sum (fun e => (e - mean h) * (e - mean h))).
Qed.

Lemma threshold_formula (h : list float) (sensitivity : float) :
  h <> [] ->
  threshold h sensitivity
  = mean h + (2.0 - 1.5 * sensitivity) * sqrt (JSMath.max (variance h) 1e-8).
Proof.
  intros Hne. unfold threshold. cbv zeta.
  now rewrite (averageArray_mean h Hne), varianceOf_variance.
Qed.

(** The comparisons of doubles in terms of [SFcompare]. *)
Lemma ltb_compare (x y : float) :
  (x <? y)
  = match SFcompare (Prim2SF x) (Prim2SF y) with
    | Some Lt => true
    | _ => false
    end.
Proof. now rewrite ltb_spec. Qed.

Lemma leb_compare (x y : float) :
  (x <=? y)
  = match SFcompare (Prim2SF x) (Prim2SF y) with
    | Some (Lt | Eq) => true
    | _ => false
    end.
Proof. now rewrite leb_spec. Qed.

Lemma eqb_compare (x y : float) :
  (x =? y)
  = match SFcompare (Prim2SF x) (Prim2SF y) with
    | Some Eq => true
    | _ => false
    end.
Proof. now rewrite FloatAxioms.eqb_spec. Qed.

(** [Math.max(0, Math.min(1, s))] on a number: within [0, 1], and the
    number itself when it already is. *)
Lemma clamp_spec (s : float) :
  is_nan s = false ->
  (0 <=? JSMath.max 0 (JSMath.min 1 s)) = true
  /\ (JSMath.max 0 (JSMath.min 1 s) <=? 1) = true
  /\ ((0 <=? s) = true -> (s <=? 1) = true ->
      (JSMath.max 0 (JSMath.min 1 s) =? s) = true).
Proof.
  intros Hs. pose proof (not_nan_spec s Hs) as Hx.
  assert (H1 : Prim2SF 1 <> S754_nan) by (vm_compute; discriminate).
  assert (H0 : Prim2SF 0 <> S754_nan) by (vm_compute; discriminate).
  destruct (SFcompare (Prim2SF 1) (Prim2SF s)) as [c1 |] eqn:E1;
    [| exfalso; exact (SFcompare_defined _ _ H1 Hx E1)].
  destruct (SFcompare (Prim2SF 0) (Prim2SF s)) as [c0 |] eqn:E0;
    [| exfalso; exact (SFcompare_defined _ _ H0 Hx E0)].
  assert (E1' : SFcompare (Prim2SF s) (Prim2SF 1) = Some (CompOpp c1))
    by (rewrite SFcompare_antisym, E1; reflexivity).
  assert (E0' : SFcompare (Prim2SF s) (Prim2SF 0) = Some (CompOpp c0))
    by (rewrite SFcompare_antisym, E0; reflexivity).
  assert (Em : JSMath.min 1 s = match c1 with Lt => 1 | _ => s end).
  { unfold JSMath.min. rewrite Hs. change (is_nan 1) with false. cbn [orb].
    rewrite (ltb_compare 1 s), (ltb_compare s 1), E1, E1'.
    change (get_sign 1) with false. destruct c1; reflexivity. }
  assert (Ec : JSMath.max 0 s = match c0 with Lt => s | _ => 0 end).
  { unfold JSMath.max. rewrite Hs. change (is_nan 0) with false. cbn [orb].
    rewrite (ltb_compare 0 s), (ltb_compare s 0), E0, E0'.
    change (get_sign 0) with false. destruct c0; reflexivity. }
  rewrite Em.
  assert (Hlt : c1 = Lt ->
                (0 <=? JSMath.max 0 1) = true
                /\ (JSMath.max 0 1 <=? 1) = true
                /\ ((0 <=? s) = true -> (s <=? 1) = true ->
                    (JSMath.max 0 1 =? s) = true)).
  { intros ->. split; [reflexivity |]. split; [reflexivity |].
    intros _ H. rewrite leb_compare, E1' in H. discriminate. }
  assert (Hin : c1 <> Lt ->
                (0 <=? JSMath.max 0 s) = true
                /\ (JSMath.max 0 s <=? 1) = true
                /\ ((0 <=? s) = true -> (s <=? 1) = true ->
                    (JSMath.max 0 s =? s) = true)).
  { intros Hc1. rewrite Ec. destruct c0.
    - split; [reflexivity |]. split; [reflexivity |].
      intros _ _. now rewrite eqb_compare, E0.
    - split; [now rewrite leb_compare, E0 |]. split.
      + rewrite leb_compare, E1'. destruct c1; try reflexivity.
        now contradiction Hc1.
      + intros _ _. rewrite eqb_compare.
        destruct (SFcompare (Prim2SF s) (Prim2SF s)) as [c |] eqn:Es;
          [| exfalso; exact (SFcompare_defined _ _ Hx Hx Es)].
        pose proof (SFcompare_antisym (Prim2SF s) (Prim2SF s)) as Ha.
        rewrite Es in Ha. simpl in Ha. destruct c; try reflexivity;
          discriminate.
    - split; [reflexivity |]. split; [reflexivity |].
      intros H _. rewrite leb_compare, E0 in H. discriminate. }
  destruct c1; [apply Hin; discriminate | now apply Hlt
               | apply Hin; discriminate].
Qed.

(** C1 (amended).  After the push into the bounded history [h], the
    detector reports a beat exactly when [h] holds at least 8 samples,
    the energy strictly exceeds mean + k * stddev, with stddev =
    sqrt(max(variance, 1e-8)) over [h] and k = 2.0 - 1.5 * sensitivity,
    and MORE than 120 ms have elapsed since the last fired beat; the time
    stamp is recorded exactly when a beat fires.  The sensitivity is the
    one stored by [setBeatSensitivity], which clamps a number to [0, 1]. *)
Theorem detectBeat_fires_iff (st : State) (energy nowSec : float) :
  let h := pushEnergy (energyHistory st) energy in
  (snd (detectBeat st energy nowSec) = true
   <-> (8 <= length h)%nat
       /\ (mean h + (2.0 - 1.5 * beatSensitivity st)
                    * sqrt (JSMath.max (variance h) 1e-8) <? energy) = true
       /\ (0.12 <? nowSec - lastBeatAt st) = true)
  /\ energyHistory (fst (detectBeat st energy nowSec)) = h
  /\ h = (if (43 <? length (energyHistory st ++ [energy]))%nat
          then tl (energyHistory st ++ [energy])
          else energyHistory st ++ [energy])
  /\ lastBeatAt (fst (detectBeat st energy nowSec))
     = (if snd (detectBeat st energy nowSec) then nowSec else lastBeatAt st)
  /\ beatSensitivity (fst (detectBeat st energy nowSec)) = beatSensitivity st
  /\ (forall s : float,
         is_nan s = false ->
         (0 <=? beatSensitivity (setBeatSensitivity st s)) = true
         /\ (beatSensitivity (setBeatSensitivity st s) <=? 1) = true
         /\ ((0 <=? s) = true -> (s <=? 1) = true ->
             (beatSensitivity (setBeatSensitivity st s) =? s) = true)).
Proof.
  cbv zeta.
  split.
  { rewrite detectBeat_isBeat_iff. unfold firesInCode. cbv zeta.
    set (h := pushEnergy (energyHistory st) energy).
    split; intros (Hlen & Hthr & Hgap);
      (assert (Hne : h <> []) by (intros E; rewrite E in Hlen; simpl in Hlen; lia));
      rewrite (threshold_formula h _ Hne) in *;
      repeat split; assumption. }
  split; [apply detectBeat_history |].
  split; [reflexivity |].
  split; [apply detectBeat_lastBeatAt |].
  split; [apply detectBeat_sensitivity |].
  intros s Hs. apply clamp_spec. exact Hs.
Qed.

(** A fired beat is always more than [minInterval] after the recorded
    previous one, whatever the sensitivity. *)
Corollary detectBeat_debounced (st : State) (energy nowSec : float) :
  snd (detectBeat st energy nowSec) = true ->
  (minInterval <? nowSec - lastBeatAt st) = true
  /\ lastBeatAt (fst (detectBeat st energy nowSec)) = nowSec.
Proof.
  intros Hbeat. split.
  - apply detectBeat_isBeat_iff in Hbeat. apply Hbeat.
  - rewrite detectBeat_lastBeatAt, Hbeat. reflexivity.
Qed.

End AudioEngineProps.

(** ** Rational comparisons *)

Module QNumProps.
Import QNum.
Open Scope Q_scope.

Lemma gtb_true_iff (a b : Q) : (a >? b) = true <-> b < a.
Proof.
  unfold gtb. destruct (Qlt_le_dec b a) as [H | H]; split; intros H1;
    try reflexivity; try assumption; try discriminate.
  exfalso. apply (Qlt_not_le _ _ H1 H).
Qed.

Lemma ltb_true_iff (a b : Q) : (a <? b) = true <-> a < b.
Proof. apply gtb_true_iff. Qed.

Lemma geb_true_iff (a b : Q) : (a >=? b) = true <-> b <= a.
Proof.
  unfold geb. destruct (Qlt_le_dec a b) as [H | H]; split; intros H1;
    try reflexivity; try assumption; try discriminate.
  exfalso. apply (Qlt_not_le _ _ H H1).
Qed.

Lemma leb_true_iff (a b : Q) : (a <=? b) = true <-> a <= b.
Proof. apply geb_true_iff. Qed.

Lemma gtb_false_iff (a b : Q) : (a >? b) = false <-> a <= b.
Proof.
  unfold gtb. destruct (Qlt_le_dec b a) as [H | H]; split; intros H1;
    try reflexivity; try assumption; try discriminate.
  exfalso. apply (Qlt_not_le _ _ H H1).
Qed.

Lemma geb_false_iff (a b : Q) : (a >=? b) = false <-> a < b.
Proof.
  unfold geb. destruct (Qlt_le_dec a b) as [H | H]; split; intros H1;
    try reflexivity; try assumption; try discriminate.
  exfalso. apply (Qlt_not_le _ _ H1 H).
Qed.

End QNumProps.

(** ** Hold timers

    Both the instrument classifier and the effect selector guard a label
    with a time stamp: the label only changes on a step that also records
    the time of the step, and only when enough time has passed since the
    recorded one.  The spacing of label changes is proved once. *)

Module HoldTimer.
Section Spacing.
Open Scope Q_scope.

Variables (St In Lb : Type).
Variable step : St -> In -> St.
Variable label : St -> Lb.
Variable stamp : St -> Q.
Variable time : In -> Q.
Variable inv : St -> Prop.
(** [gap_ok d]: an elapsed time [d] lets the label change. *)
Variable gap_ok : Q -> Prop.

Hypothesis gap_nonneg : forall d, gap_ok d -> 0 <= d.
Hypothesis gap_mono : forall d d', gap_ok d -> d <= d' -> gap_ok d'.
Hypothesis inv_step : forall s x, inv s -> inv (step s x).
(** A step either keeps label and stamp, or stamps the time of the step
    after a sufficient gap. *)
Hypothesis step_cases :
  forall s x, inv s ->
    (label (step s x) = label s /\ stamp (step s x) = stamp s)
    \/ (stamp (step s x) = time x /\ gap_ok (time x - stamp s)).

Fixpoint states (s : St) (xs : list In) : list St :=
  match xs with
  | [] => []
  | x :: rest => step s x :: states (step s x) rest
  end.

(** The label changes at step [i] of the run from [s] over [xs], and that
    step happens at time [t]. *)
Definition changes_at (s : St) (xs : list In) (i : nat) (t : Q) : Prop :=
  exists before after x,
    nth_error (s :: states s xs) i = Some before
    /\ nth_error (states s xs) i = Some after
    /\ nth_error xs i = Some x
    /\ label after <> label before
    /\ t = time x.

Lemma changes_at_0 (s : St) (x : In) (rest : list In) (t : Q) :
  changes_at s (x :: rest) 0 t -> label (step s x) <> label s /\ t = time x.
Proof.
  intros (before & after & x' & Hb & Ha & Hx & Hne & Ht).
  simpl in *. inversion Hb; inversion Ha; inversion Hx; subst.
  split; [assumption | reflexivity].
Qed.

Lemma changes_at_S (s : St) (x : In) (rest : list In) (i : nat) (t : Q) :
  changes_at s (x :: rest) (S i) t -> changes_at (step s x) rest i t.
Proof.
  intros (before & after & x' & Hb & Ha & Hx & Hne & Ht).
  exists before, after, x'. simpl in *. auto.
Qed.

Lemma stamp_monotone (s : St) (x : In) :
  inv s -> stamp s <= stamp (step s x).
Proof.
  intros Hinv.
  destruct (step_cases s x Hinv) as [[_ Hkeep] | [Hstamp Hgap]].
  - rewrite Hkeep. apply Qle_refl.
  - rewrite Hstamp. apply gap_nonneg in Hgap. lra.
Qed.

(** The first change of a run comes a full gap after the stamp the run
    started with. *)
Lemma change_after_stamp (xs : list In) :
  forall (s : St) (i : nat) (t : Q),
    inv s -> changes_at s xs i t -> gap_ok (t - stamp s).
Proof.
  induction xs as [| x rest IH]; intros s i t Hinv Hch.
  - destruct Hch as (b & a & x & _ & _ & Hx & _). destruct i; discriminate.
  - destruct i as [| i].
    + apply changes_at_0 in Hch. destruct Hch as [Hne ->].
      destruct (step_cases s x Hinv) as [[Hsame _] | [_ Hgap]];
        [contradiction | exact Hgap].
    + apply changes_at_S in Hch.
      apply (gap_mono (t - stamp (step s x))).
      * apply (IH (step s x) i); [apply inv_step; exact Hinv | exact Hch].
      * pose proof (stamp_monotone s x Hinv). lra.
Qed.

(** Any two changes of the label in one run are a full gap apart. *)
Lemma changes_spaced (xs : list In) :
  forall (s : St) (i j : nat) (ti tj : Q),
    inv s -> (i < j)%nat ->
    changes_at s xs i ti -> changes_at s xs j tj ->
    gap_ok (tj - ti).
Proof.
  induction xs as [| x rest IH]; intros s i j ti tj Hinv Hij Hi Hj.
  - destruct Hi as (b & a & x & _ & _ & Hx & _). destruct i; discriminate.
  - destruct j as [| j]; [lia |].
    apply changes_at_S in Hj.
    destruct i as [| i].
    + apply changes_at_0 in Hi. destruct Hi as [Hne ->].
      destruct (step_cases s x Hinv) as [[Hsame _] | [Hstamp _]];
        [contradiction |].
      rewrite <- Hstamp.
      apply (change_after_stamp rest (step s x) j);
        [apply inv_step; exact Hinv | exact Hj].
    + apply changes_at_S in Hi.
      apply (IH (step s x) i j);
        [apply inv_step; exact Hinv | lia | exact Hi | exact Hj].
Qed.

End Spacing.
End HoldTimer.

(** ** Instrument classifier *)

Module InstrumentClassifierProps.
Import QNum QNumProps InstrumentClassifier.
Open Scope Q_scope.

Lemma Instrument_eqb_eq (a b : Instrument) :
  Instrument_eqb a b = true <-> a = b.
Proof. destruct a, b; simpl; split; congruence. Qed.

Lemma Instrument_eqb_neq (a b : Instrument) :
  Instrument_eqb a b = false <-> a <> b.
Proof. destruct a, b; simpl; split; congruence. Qed.

Example bass_line :
  classifyInstant 0.3 0.6 0.2 0.1 false = bass.
Proof. reflexivity. Qed.

Example drum_hit :
  classifyInstant 0.3 0.6 0.2 0.7 true = drums.
Proof. reflexivity. Qed.

(** The hold timer of [update]: the proposed label is accepted when it
    differs from the current one and [holdSeconds] have elapsed since
    [lastSwitchAt]; then the switch time is recorded.  Otherwise nothing
    changes. *)
Lemma update_spec (st : State) (c : Call) :
  let proposed := classifyInstant (rms c) (low c) (mid c) (high c) (beat c) in
  (proposed <> current st /\ holdSeconds st <= timeSec c - lastSwitchAt st ->
   update st c =
   ({| holdSeconds := holdSeconds st; current := proposed;
       lastSwitchAt := timeSec c |}, proposed))
  /\ (~ (proposed <> current st
         /\ holdSeconds st <= timeSec c - lastSwitchAt st) ->
      update st c = (st, current st)).
Proof.
  cbv zeta. unfold update.
  set (proposed := classifyInstant _ _ _ _ _).
  destruct (Instrument_eqb proposed (current st)) eqn:Eeq; simpl.
  - apply Instrument_eqb_eq in Eeq. split; [tauto | reflexivity].
  - apply Instrument_eqb_neq in Eeq.
    destruct (timeSec c - lastSwitchAt st >=? holdSeconds st) eqn:Ege.
    + split; [reflexivity |]. apply geb_true_iff in Ege. tauto.
    + apply geb_false_iff in Ege. split; [| reflexivity].
      intros [_ Hle]. exfalso. apply (Qlt_not_le _ _ Ege Hle).
Qed.

Lemma update_returns_current (st : State) (c : Call) :
  snd (update st c) = current (fst (update st c)).
Proof.
  unfold update.
  destruct (negb _ && _); reflexivity.
Qed.

Lemma update_holdSeconds (st : State) (c : Call) :
  holdSeconds (fst (update st c)) = holdSeconds st.
Proof.
  unfold update.
  destruct (negb _ && _); reflexivity.
Qed.

Lemma update_cases (st : State) (c : Call) :
  (current (fst (update st c)) = current st
   /\ lastSwitchAt (fst (update st c)) = lastSwitchAt st)
  \/ (lastSwitchAt (fst (update st c)) = timeSec c
      /\ holdSeconds st <= timeSec c - lastSwitchAt st).
Proof.
  unfold update.
  destruct (negb _) eqn:Ene; simpl; [| left; split; reflexivity].
  destruct (timeSec c - lastSwitchAt st >=? holdSeconds st) eqn:Ege; simpl.
  - right. split; [reflexivity |]. now apply geb_true_iff.
  - left. split; reflexivity.
Qed.

Lemma classifier_run_states (calls : list Call) :
  forall st,
    run st calls = HoldTimer.states _ _ (fun s c => fst (update s c)) st calls.
Proof.
  induction calls as [| c rest IH]; intros st; simpl; [reflexivity |].
  now rewrite IH.
Qed.

Lemma labels_run (calls : list Call) :
  forall st, labels st calls = map current (run st calls).
Proof.
  induction calls as [| c rest IH]; intros st; simpl; [reflexivity |].
  pose proof (update_returns_current st c) as Hret.
  destruct (update st c) as [st1 l]. simpl in *. now rewrite IH, Hret.
Qed.

(** The label returned by call [i] differs from the label returned by the
    call before it (from the current label, for the first call), and call
    [i] carries the time stamp [t]. *)
Definition label_changes_at
  (st : State) (calls : list Call) (i : nat) (t : Q) : Prop :=
  exists previous returned c,
    nth_error (current st :: labels st calls) i = Some previous
    /\ nth_error (labels st calls) i = Some returned
    /\ nth_error calls i = Some c
    /\ returned <> previous
    /\ t = timeSec c.

Lemma label_changes_at_states
  (st : State) (calls : list Call) (i : nat) (t : Q) :
  label_changes_at st calls i t ->
  HoldTimer.changes_at _ _ _ (fun s c => fst (update s c)) current timeSec
                       st calls i t.
Proof.
  intros (previous & returned & c & Hp & Hr & Hc & Hne & Ht).
  rewrite labels_run, classifier_run_states in Hp, Hr.
  change (current st :: map current ?l) with (map current (st :: l)) in Hp.
  rewrite nth_error_map in Hp, Hr.
  destruct (nth_error (st :: _) i) as [before |] eqn:Eb; [| discriminate].
  destruct (nth_error (HoldTimer.states _ _ _ st calls) i) as [after |] eqn:Ea;
    [| discriminate].
  simpl in Hp, Hr. inversion Hp; inversion Hr; subst.
  exists before, after, c. auto.
Qed.

Lemma label_changes_spaced (calls : list Call) (st : State)
      (i j : nat) (ti tj : Q) :
  0 <= holdSeconds st -> (i < j)%nat ->
  label_changes_at st calls i ti -> label_changes_at st calls j tj ->
  holdSeconds st <= tj - ti.
Proof.
  intros Hhold Hij Hi Hj.
  apply label_changes_at_states in Hi, Hj.
  apply (HoldTimer.changes_spaced
           State Call Instrument (fun s c => fst (update s c)) current
           lastSwitchAt timeSec
           (fun s => holdSeconds s = holdSeconds st)
           (fun d => holdSeconds st <= d)) with (xs := calls) (s := st)
           (i := i) (j := j); try assumption; try reflexivity.
  - intros d Hd. lra.
  - intros d d' Hd Hdd'. lra.
  - intros s x Hs. now rewrite update_holdSeconds.
  - intros s x Hs. rewrite <- Hs. apply update_cases.
Qed.

(** C6.  Over any sequence of calls, two changes of the returned label are
    at least [holdSeconds] (5 s by default) apart, so the label changes at
    most once within any 5-second window; a proposed label is accepted only
    when it differs from the current one and at least [holdSeconds] have
    elapsed since the last accepted switch, and the switch time is then
    recorded. *)
Theorem instrument_label_hold (calls : list Call) (st : State)
        (i j : nat) (ti tj : Q) :
  0 <= holdSeconds st -> (i < j)%nat ->
  label_changes_at st calls i ti -> label_changes_at st calls j tj ->
  holdSeconds st <= tj - ti
  /\ (forall (s : State) (c : Call),
        let proposed :=
          classifyInstant (rms c) (low c) (mid c) (high c) (beat c) in
        (proposed <> current s
         /\ holdSeconds s <= timeSec c - lastSwitchAt s ->
         update s c =
         ({| holdSeconds := holdSeconds s; current := proposed;
             lastSwitchAt := timeSec c |}, proposed))
        /\ (~ (proposed <> current s
               /\ holdSeconds s <= timeSec c - lastSwitchAt s) ->
            update s c = (s, current s))).
Proof.
  intros Hhold Hij Hi Hj. split.
  - exact (label_changes_spaced calls st i j ti tj Hhold Hij Hi Hj).
  - intros s c. apply update_spec.
Qed.

(** A bass line at 5 s, then a guitar at 10 s. *)
Definition bass_then_guitar : list Call :=
  [ mkCall 5 0.3 0.6 0.2 0.1 false; mkCall 7 0.3 0.1 0.7 0.1 false;
    mkCall 10 0.3 0.1 0.7 0.1 false ].

Example bass_then_guitar_labels :
  labels (new 5) bass_then_guitar = [bass; bass; guitar].
Proof. reflexivity. Qed.

Lemma instrument_label_hold_witness :
  holdSeconds (new 5) <= 10 - 5.
Proof.
  refine (proj1 (instrument_label_hold bass_then_guitar (new 5) 0 2 5 10
                   _ _ _ _)).
  - simpl. lra.
  - lia.
  - exists none, bass, (mkCall 5 0.3 0.6 0.2 0.1 false).
    repeat split; try reflexivity. discriminate.
  - exists bass, guitar, (mkCall 10 0.3 0.1 0.7 0.1 false).
    repeat split; try reflexivity. discriminate.
Defined.

(** While less than [holdSeconds] have passed on the clock of a fresh
    classifier, no label is accepted. *)
Lemma update_before_hold (c : Call) :
  timeSec c < 5 -> update (new 5) c = (new 5, none).
Proof.
  intros Ht.
  destruct (update_spec (new 5) c) as [_ Hkeep]. simpl in Hkeep.
  apply Hkeep. intros [_ Hle]. lra.
Qed.

(** C10.  A freshly constructed classifier with the default 5-second hold
    returns 'none' on every call whose time is below 5, whatever the audio
    features: [lastSwitchAt] starts at 0. *)
Theorem fresh_classifier_none_before_5s (calls : list Call) :
  Forall (fun c => timeSec c < 5) calls ->
  Forall (fun l => l = none) (labels (new 5) calls)
  /\ Forall (fun s => s = new 5) (run (new 5) calls).
Proof.
  induction 1 as [| c rest Hc Hrest IH]; simpl.
  - split; constructor.
  - rewrite (update_before_hold c Hc). simpl.
    destruct IH as [IHl IHs]. split; constructor; auto.
Qed.

Definition loud_first_seconds : list Call :=
  [ mkCall 0.5 0.9 0.9 0.1 0.1 false; mkCall 2 0.9 0.1 0.9 0.1 true;
    mkCall 4.99 0.9 0.1 0.1 0.9 true ].

Lemma fresh_classifier_none_before_5s_witness :
  Forall (fun l => l = none) (labels (new 5) loud_first_seconds)
  /\ Forall (fun s => s = new 5) (run (new 5) loud_first_seconds).
Proof.
  apply (fresh_classifier_none_before_5s loud_first_seconds).
  repeat constructor.
Defined.

End InstrumentClassifierProps.

(** ** Crystal sphere: pools and exclusivity *)

Module CrystalSphereProps.
Import QNum QNumProps CrystalSphere.
Open Scope Q_scope.

(** Externals to run the engine on concrete inputs: a cubic sine, a
    rational pi, a constant random source, and vector methods that leave
    their receiver alone. *)
Definition sampleExternals : Externals :=
  {| Math_sin := fun x => x - x * x * x / 6;
     Math_PI := 355 / 113;
     Math_random := fun _ => 0.5;
     normalize := fun v => v;
     applyAxisAngle := fun v _ _ => v |}.

(** The identities of all pooled objects, pool by pool. *)
Definition poolIds (p : Pools) : list nat :=
  map ringId (resonancePool p) ++ map rayId (prismPool p)
  ++ map batchId (riftPool p) ++ map spikeId (spikesPool p).

Lemma remove_head {A : Type} (key : A -> nat) (c : A) (rest : list A) :
  remove key (key c) (c :: rest) = rest.
Proof. simpl. now rewrite Nat.eqb_refl. Qed.

Lemma clearGroup_fold {A : Type} (key : A -> nat) (l : list A) :
  forall (r : list A) (log : list nat),
    fold_left (fun acc obj => (remove key (key obj) (fst acc),
                               snd acc ++ [key obj]))
              l (l ++ r, log)
    = (r, log ++ map key l).
Proof.
  induction l as [| o l IH]; intros r log; simpl.
  - now rewrite app_nil_r.
  - rewrite Nat.eqb_refl, IH, <- app_assoc. reflexivity.
Qed.

(** Removing every child of a snapshot empties the group and disposes of
    each child once. *)
Lemma clearGroup_spec {A : Type} (key : A -> nat) (l : list A) :
  clearGroup key l = ([], map key l).
Proof.
  unfold clearGroup.
  pose proof (clearGroup_fold key l [] []) as H.
  rewrite app_nil_r in H. exact H.
Qed.

Lemma clearAllEffects_spec (st : State) :
  clearAllEffects st
  = mkState (group st) (mkPools [] [] [] []) (bloomStrength st)
            (themeIndex st) idle (nextId st) (randomCalls st)
            (disposed st ++ poolIds (effectGroups st)) (appliedThemes st).
Proof.
  unfold clearAllEffects, poolIds.
  rewrite !clearGroup_spec. reflexivity.
Qed.

Lemma emitResonance_spec (rings : nat) (st : State) :
  emitResonance st rings
  = mkState (group st)
            (with_resonancePool
               (effectGroups st)
               (resonancePool (effectGroups st)
                ++ map (fun i => mkRing (nextId st + i) 1
                                        (inject_Z (Z.of_nat i) * 0.06) 0.1 1)
                       (seq 0 rings)))
            (bloomStrength st) (themeIndex st) (activeEffect st)
            (nextId st + rings) (randomCalls st) (disposed st)
            (appliedThemes st).
Proof.
  unfold emitResonance.
  induction rings as [| n IH].
  - destruct st as [g [p1 p2 p3 p4] b t a n r d ap]. simpl.
    now rewrite app_nil_r, Nat.add_0_r.
  - rewrite seq_S, fold_left_app, IH. simpl.
    unfold with_nextId, with_effectGroups, with_resonancePool. simpl.
    rewrite map_app, <- app_assoc. simpl.
    now rewrite Nat.add_succ_r.
Qed.

Lemma emitPrism_spec (rays : nat) (st : State) :
  emitPrism st rays
  = mkState (group st)
            (with_prismPool
               (effectGroups st)
               (prismPool (effectGroups st)
                ++ map (fun i => mkRay (nextId st + i) 1 0 0) (seq 0 rays)))
            (bloomStrength st) (themeIndex st) (activeEffect st)
            (nextId st + rays) (randomCalls st) (disposed st)
            (appliedThemes st).
Proof.
  unfold emitPrism.
  induction rays as [| n IH].
  - destruct st as [g [p1 p2 p3 p4] b t a n r d ap]. simpl.
    now rewrite app_nil_r, Nat.add_0_r.
  - rewrite seq_S, fold_left_app, IH. simpl.
    unfold with_nextId, with_effectGroups, with_prismPool. simpl.
    rewrite map_app, <- app_assoc. simpl.
    now rewrite Nat.add_succ_r.
Qed.

Lemma createSpikes_spec (ext : Externals) (count : nat) (low mid high : Q)
      (st : State) :
  createSpikes ext st count low mid high
  = mkState (group st)
            (with_spikesPool
               (effectGroups st)
               (spikesPool (effectGroups st)
                ++ map (fun i => newSpike ext (nextId st + i)
                                          (randomCalls st + 3 * i) high)
                       (seq 0 count)))
            (bloomStrength st) (themeIndex st) (activeEffect st)
            (nextId st + count) (randomCalls st + 3 * count) (disposed st)
            (appliedThemes st).
Proof.
  unfold createSpikes.
  induction count as [| n IH].
  - destruct st as [g [p1 p2 p3 p4] b t a n r d ap]. simpl.
    now rewrite app_nil_r, !Nat.add_0_r.
  - rewrite seq_S, fold_left_app, IH. simpl.
    unfold with_randomCalls, with_nextId, with_effectGroups, with_spikesPool.
    simpl. rewrite map_app, <- app_assoc. simpl.
    f_equal; lia.
Qed.

Lemma emitRift_spec (ext : Externals) (count : nat) (st : State) :
  emitRift ext st count
  = mkState (group st)
            (with_riftPool
               (effectGroups st)
               (riftPool (effectGroups st)
                ++ [mkBatch (nextId st)
                            (map (fun i => newParticle ext (randomCalls st + 6 * i))
                                 (seq 0 count))
                            1]))
            (bloomStrength st) (themeIndex st) (activeEffect st)
            (S (nextId st)) (randomCalls st + 6 * count) (disposed st)
            (appliedThemes st).
Proof. reflexivity. Qed.

(** The number of objects in the pool of a kind, and the size of the batch
    that [triggerEffect] emits for it. *)
Definition poolSize (p : Pools) (kind : EffectState) : nat :=
  match kind with
  | idle => 0
  | resonance => List.length (resonancePool p)
  | prism => List.length (prismPool p)
  | rift => List.length (riftPool p)
  | spikes => List.length (spikesPool p)
  end.

Definition batchSize (kind : EffectState) : nat :=
  match kind with
  | idle => 0
  | resonance => 3
  | prism => 120
  | rift => 1
  | spikes => 36
  end.

Lemma poolIds_fresh_seq {A : Type} (key : A -> nat) (mk : nat -> A)
      (base count id : nat) :
  (forall i, key (mk i) = base + i)%nat ->
  In id (map key (map mk (seq 0 count))) ->
  (base <= id < base + count)%nat.
Proof.
  intros Hkey Hin.
  rewrite map_map in Hin. apply in_map_iff in Hin.
  destruct Hin as (i & Hi & Hseq). apply in_seq in Hseq.
  rewrite Hkey in Hi. lia.
Qed.

(** Reduction of the field accesses of a state built by the setters,
    leaving the emitted batches folded. *)
Ltac fields :=
  unfold with_activeEffect, with_bloomStrength, poolIds;
  cbn [activeEffect group disposed effectGroups nextId bloomStrength
       themeIndex randomCalls appliedThemes
       resonancePool prismPool riftPool spikesPool
       with_resonancePool with_prismPool with_riftPool with_spikesPool
       poolSize List.length map app].

Ltac triggered Hgroup :=
  unfold triggerEffect; rewrite Hgroup; cbn [negb];
  rewrite clearAllEffects_spec;
  rewrite ?emitResonance_spec, ?emitPrism_spec, ?createSpikes_spec,
          ?emitRift_spec;
  fields.

Lemma triggerEffect_state (ext : Externals) (st : State) (kind : EffectState) :
  group st = true -> kind <> idle ->
  activeEffect (triggerEffect ext st kind) = kind
  /\ group (triggerEffect ext st kind) = true
  /\ disposed (triggerEffect ext st kind)
     = disposed st ++ poolIds (effectGroups st).
Proof.
  intros Hgroup Hkind.
  destruct kind; try contradiction; triggered Hgroup; auto.
Qed.

Lemma triggerEffect_pools (ext : Externals) (st : State) (kind : EffectState) :
  group st = true -> kind <> idle ->
  (forall other, other <> kind ->
                 poolSize (effectGroups (triggerEffect ext st kind)) other
                 = 0%nat)
  /\ poolSize (effectGroups (triggerEffect ext st kind)) kind = batchSize kind.
Proof.
  intros Hgroup Hkind.
  destruct kind; try contradiction; triggered Hgroup;
    (split; [intros other Hother; destruct other; fields;
             try reflexivity; contradiction
            | rewrite ?length_map, ?length_seq; reflexivity]).
Qed.

Lemma triggerEffect_fresh (ext : Externals) (st : State) (kind : EffectState) :
  group st = true -> kind <> idle ->
  forall id,
    In id (poolIds (effectGroups (triggerEffect ext st kind))) ->
    (nextId st <= id < nextId (triggerEffect ext st kind))%nat.
Proof.
  intros Hgroup Hkind id.
  destruct kind; try contradiction; triggered Hgroup; rewrite ?app_nil_r.
  - apply poolIds_fresh_seq. reflexivity.
  - apply poolIds_fresh_seq. reflexivity.
  - intros [<- | []]. cbn [batchId]. lia.
  - apply poolIds_fresh_seq. reflexivity.
Qed.

(** C5.  Right after [triggerEffect] of a non-idle kind, every pool other
    than the one of that kind is empty: all four pools were cleared, each
    of their objects disposed, and a fresh batch was emitted into the pool
    of the new kind only. *)
Theorem triggerEffect_exclusive
        (ext : Externals) (st : State) (kind : EffectState) :
  group st = true -> kind <> idle ->
  activeEffect (triggerEffect ext st kind) = kind
  /\ (forall other, other <> kind ->
                    poolSize (effectGroups (triggerEffect ext st kind)) other
                    = 0%nat)
  /\ poolSize (effectGroups (triggerEffect ext st kind)) kind = batchSize kind
  /\ disposed (triggerEffect ext st kind)
     = disposed st ++ poolIds (effectGroups st)
  /\ (forall id,
        In id (poolIds (effectGroups (triggerEffect ext st kind))) ->
        (nextId st <= id < nextId (triggerEffect ext st kind))%nat).
Proof.
  intros Hgroup Hkind.
  destruct (triggerEffect_state ext st kind Hgroup Hkind) as (Ha & _ & Hd).
  destruct (triggerEffect_pools ext st kind Hgroup Hkind) as (Ho & Hk).
  split; [exact Ha |]. split; [exact Ho |]. split; [exact Hk |].
  split; [exact Hd |].
  intros id Hin. now apply triggerEffect_fresh.
Qed.

(** A crystal showing prism rays, about to be switched to resonance. *)
Definition showingPrism : State :=
  triggerEffect sampleExternals (init new) prism.

Example showingPrism_pools :
  poolSize (effectGroups showingPrism) prism = 120%nat
  /\ activeEffect showingPrism = prism.
Proof. split; reflexivity. Qed.

Lemma triggerEffect_exclusive_witness :
  activeEffect (triggerEffect sampleExternals showingPrism resonance)
  = resonance
  /\ poolSize (effectGroups
                 (triggerEffect sampleExternals showingPrism resonance))
              prism = 0%nat.
Proof.
  destruct (triggerEffect_exclusive sampleExternals showingPrism resonance)
    as (Ha & Ho & _).
  - reflexivity.
  - discriminate.
  - split; [exact Ha | apply Ho; discriminate].
Defined.

(** ** Theme selection *)

(** The base index by instrument, as the source has it ('none' falls
    through to the initial value 0 of [idx]) and as the specification words
    it ('none' keeps the current index). *)
Definition baseIndex (instrument : InstrumentClassifier.Instrument) : nat :=
  match instrument with
  | InstrumentClassifier.bass => 0
  | InstrumentClassifier.guitar => 1
  | InstrumentClassifier.drums => 2
  | InstrumentClassifier.none => 0
  end.

Definition baseIndexAsClaimed
  (currentIndex : nat) (instrument : InstrumentClassifier.Instrument) : nat :=
  match instrument with
  | InstrumentClassifier.bass => 0
  | InstrumentClassifier.guitar => 1
  | InstrumentClassifier.drums => 2
  | InstrumentClassifier.none => currentIndex
  end.

(** The advance by one, modulo the theme count, at energies above 0.35. *)
Definition advance (energy : Q) (idx : nat) : nat :=
  if energy >? 0.35 then ((idx + 1) mod List.length themes)%nat else idx.

(** A crystal left on theme 2 by a quiet drum passage. *)
Definition afterDrums : State :=
  setThemeByEnergyInstrument (init new) 0.1 InstrumentClassifier.drums.

(** C7, as stated, fails: with no instrument the index does not stay where
    it is but goes back to 0, and theme 0 is applied. *)
Lemma none_resets_theme :
  themeIndex afterDrums = 2%nat
  /\ advance 0.1 (baseIndexAsClaimed (themeIndex afterDrums)
                                     InstrumentClassifier.none) = 2%nat
  /\ themeIndex (setThemeByEnergyInstrument
                   afterDrums 0.1 InstrumentClassifier.none) = 0%nat
  /\ appliedThemes (setThemeByEnergyInstrument
                      afterDrums 0.1 InstrumentClassifier.none)
     = appliedThemes afterDrums ++ [0%nat]
  /\ themeIndex (setThemeByEnergyInstrument
                   afterDrums 0.1 InstrumentClassifier.none)
     <> advance 0.1 (baseIndexAsClaimed (themeIndex afterDrums)
                                        InstrumentClassifier.none).
Proof.
  split; [reflexivity |]. split; [reflexivity |]. split; [reflexivity |].
  split; [reflexivity | discriminate].
Qed.

Lemma advance_valid (energy : Q) (idx : nat) :
  (idx < List.length themes)%nat ->
  (advance energy idx < List.length themes)%nat.
Proof.
  intros Hidx. unfold advance.
  destruct (energy >? 0.35); [| exact Hidx].
  apply Nat.mod_upper_bound. discriminate.
Qed.

(** C7 (amended).  The base index is 0 for bass, 1 for guitar, 2 for drums
    and 0 when there is no instrument; above energy 0.35 it advances by one
    modulo the theme count.  The index is stored and the theme applied
    exactly when the result differs from the current index; the result is
    always a valid index. *)
Theorem setTheme_selects
        (st : State) (energy : Q)
        (instrument : InstrumentClassifier.Instrument) :
  themeIndex (setThemeByEnergyInstrument st energy instrument)
  = advance energy (baseIndex instrument)
  /\ (advance energy (baseIndex instrument) <> themeIndex st ->
      setThemeByEnergyInstrument st energy instrument
      = applyTheme (with_themeIndex st (advance energy (baseIndex instrument)))
                   (advance energy (baseIndex instrument)))
  /\ (advance energy (baseIndex instrument) = themeIndex st ->
      setThemeByEnergyInstrument st energy instrument = st)
  /\ (advance energy (baseIndex instrument) < List.length themes)%nat.
Proof.
  assert (Hdef :
    setThemeByEnergyInstrument st energy instrument
    = if negb (advance energy (baseIndex instrument) =? themeIndex st)%nat
      then applyTheme
             (with_themeIndex st (advance energy (baseIndex instrument)))
             (advance energy (baseIndex instrument))
      else st).
  { unfold setThemeByEnergyInstrument, advance, baseIndex.
    destruct instrument; reflexivity. }
  rewrite Hdef.
  destruct (Nat.eqb_spec (advance energy (baseIndex instrument))
                         (themeIndex st)) as [Heq | Hne]; simpl.
  - repeat split; auto; try congruence.
    apply advance_valid. destruct instrument; simpl; lia.
  - repeat split; auto; try congruence.
    apply advance_valid. destruct instrument; simpl; lia.
Qed.

(** ** Resonance rings *)

(** The rings of a fresh batch: life 1, delay [i * 0.06], scale 0.1 and a
    material created with opacity 1. *)
Example emitResonance_batch :
  resonancePool (effectGroups (emitResonance (init new) 3))
  = [ mkRing 0 1 (0 * 0.06) 0.1 1;
      mkRing 1 1 (1 * 0.06) 0.1 1;
      mkRing 2 1 (2 * 0.06) 0.1 1 ].
Proof. reflexivity. Qed.

(** A ring whose delay has not run out is only counted down: it does not
    age, and neither its scale nor its opacity is written. *)
Lemma stepRing_delayed (ext : Externals) (dt : Q) (w : Ring) :
  0 < ringDelay w ->
  stepRing ext dt w
  = (mkRing (ringId w) (ringLife w) (ringDelay w - dt) (ringScale w)
            (ringOpacity w), true).
Proof.
  intros Hdelay. unfold stepRing.
  apply gtb_true_iff in Hdelay. now rewrite Hdelay.
Qed.

(** Once the delay has run out the ring ages at 0.6/s, grows from the base
    scale 0.1 and takes the opacity max(0, sin(life * pi)). *)
Lemma stepRing_aging (ext : Externals) (dt : Q) (w : Ring) :
  ringDelay w <= 0 ->
  stepRing ext dt w
  = (mkRing (ringId w) (ringLife w - dt * 0.6) (ringDelay w)
            (0.1 + (1 - (ringLife w - dt * 0.6)) * 1.4)
            (Qmax 0 (Math_sin ext ((ringLife w - dt * 0.6) * Math_PI ext))),
     ringLife w - dt * 0.6 >? 0).
Proof.
  intros Hdelay. unfold stepRing.
  apply gtb_false_iff in Hdelay. now rewrite Hdelay.
Qed.

(** The pool of a fresh batch of three rings after one tick of 1/60 s. *)
Definition ringsAfterOneTick (ext : Externals) : list Ring :=
  resonancePool
    (effectGroups (updateResonance ext (emitResonance (init new) 3) (1 / 60))).

(** C8, as stated, fails: after one tick of 1/60 s the second ring of a
    fresh batch (delay 0.06 s) has not reached its delay and has not aged,
    but it is not invisible: its material has the opacity 1 it was created
    with. *)
Lemma delayed_ring_is_visible :
  exists w,
    nth_error (ringsAfterOneTick sampleExternals) 1 = Some w
    /\ 1 / 60 < 1 * 0.06
    /\ 0 < ringDelay w
    /\ ringLife w = 1
    /\ ringOpacity w = 1
    /\ ~ ringOpacity w == 0.
Proof.
  eexists. split; [vm_compute; reflexivity |].
  cbn [ringDelay ringLife ringOpacity].
  repeat split; try reflexivity. discriminate.
Qed.

(** C8 (amended).  A ring is emitted with life 1, delay [i * 0.06], scale
    0.1 and opacity 1.  On a tick of [updateResonance], a ring whose
    delay has not run out keeps its life, its scale and its opacity (it
    is shown as created) and only has its delay counted down; a ring
    whose delay has run out ages at 0.6 per second, takes the scale
    0.1 + (1 - life) * 1.4 and the opacity max(0, sin(life * pi)), and
    stays in the pool while its life is positive. *)
Theorem resonance_ring_delay_then_envelope (ext : Externals) (dt : Q) :
  (forall (st : State) (rings : nat),
      resonancePool (effectGroups (emitResonance st rings))
      = resonancePool (effectGroups st)
        ++ map (fun i => mkRing (nextId st + i) 1
                                (inject_Z (Z.of_nat i) * 0.06) 0.1 1)
               (seq 0 rings))
  /\ (forall st : State,
        resonancePool (effectGroups (updateResonance ext st dt))
        = survivors (map (stepRing ext dt) (resonancePool (effectGroups st))))
  /\ (forall w : Ring,
        0 < ringDelay w ->
        snd (stepRing ext dt w) = true
        /\ ringLife (fst (stepRing ext dt w)) = ringLife w
        /\ ringScale (fst (stepRing ext dt w)) = ringScale w
        /\ ringOpacity (fst (stepRing ext dt w)) = ringOpacity w
        /\ ringDelay (fst (stepRing ext dt w)) = ringDelay w - dt)
  /\ (forall w : Ring,
        ringDelay w <= 0 ->
        let life1 := ringLife w - dt * 0.6 in
        ringLife (fst (stepRing ext dt w)) = life1
        /\ ringScale (fst (stepRing ext dt w)) = 0.1 + (1 - life1) * 1.4
        /\ ringOpacity (fst (stepRing ext dt w))
           = Qmax 0 (Math_sin ext (life1 * Math_PI ext))
        /\ (snd (stepRing ext dt w) = true <-> 0 < life1)).
Proof.
  split; [| split; [| split]].
  - intros st rings. rewrite emitResonance_spec. reflexivity.
  - intros st. unfold updateResonance.
    destruct (resonancePool (effectGroups st)) as [| w pool] eqn:E.
    + now rewrite E.
    + destruct (survivors (map (stepRing ext dt) (w :: pool))); reflexivity.
  - intros w Hdelay. rewrite (stepRing_delayed ext dt w Hdelay).
    repeat split.
  - intros w Hdelay. cbv zeta. rewrite (stepRing_aging ext dt w Hdelay).
    cbn [fst snd ringLife ringScale ringOpacity].
    repeat split; try reflexivity; apply gtb_true_iff.
Qed.

(** ** Rift particles *)

(** A particle alive after the tick is moved by the Euler step and then
    handed to [applyAxisAngle] with its velocity as the axis and its
    [rotationSpeed], as it is, as the angle. *)
Lemma stepParticle_alive (ext : Externals) (dt : Q) (pd : Particle) :
  0 < life pd - dt ->
  stepParticle ext dt pd
  = mkParticle (life pd - dt) (velocity pd) (rotationSpeed pd)
               (applyAxisAngle
                  ext
                  (add (position pd) (multiplyScalar (velocity pd) dt))
                  (velocity pd)
                  (rotationSpeed pd)).
Proof.
  intros Halive. unfold stepParticle, riftRotation.
  apply gtb_true_iff in Halive. now rewrite Halive.
Qed.

(** A particle whose life has run out keeps its position. *)
Lemma stepParticle_dead (ext : Externals) (dt : Q) (pd : Particle) :
  life pd - dt <= 0 ->
  stepParticle ext dt pd
  = mkParticle (life pd - dt) (velocity pd) (rotationSpeed pd) (position pd).
Proof.
  intros Hdead. unfold stepParticle.
  apply gtb_false_iff in Hdead. now rewrite Hdead.
Qed.

(** A particle as [emitRift] makes them: life in [1.2, 2.4), speed in
    [1.5, 4.5), rotation speed in [-0.02, 0.02), at the origin. *)
Definition sampleParticle : Particle :=
  mkParticle 2 (mkVector3 3 0 0) 0.01 (mkVector3 0 0 0).

(** The call of [applyAxisAngle] on a tick of 1/60 s: its receiver is the
    position advanced by velocity * dt, its axis the velocity and its
    angle [rotationSpeed] as it is (0.01, not 0.01/60).  What the method
    returns for them is three.js's, and it is stored through a
    [Float32Array]; neither is modelled. *)
Lemma rift_rotation_call (ext : Externals) :
  riftRotation (1 / 60) sampleParticle
  = (add (position sampleParticle)
         (multiplyScalar (velocity sampleParticle) (1 / 60)),
     velocity sampleParticle,
     rotationSpeed sampleParticle)
  /\ position (stepParticle ext (1 / 60) sampleParticle)
     = applyAxisAngle ext
         (add (position sampleParticle)
              (multiplyScalar (velocity sampleParticle) (1 / 60)))
         (velocity sampleParticle)
         (rotationSpeed sampleParticle)
  /\ ~ rotationSpeed sampleParticle == rotationSpeed sampleParticle * (1 / 60).
Proof.
  split; [reflexivity |]. split; [reflexivity |].
  simpl. discriminate.
Qed.

(** ** What leaves the active kind alone

    Only [clearAllEffects] and [triggerEffect] assign [activeEffect]; the
    theme setter, the emitters and the update loops keep it, and nothing
    resets [group]. *)

Definition keeps (f : State -> State) : Prop :=
  forall st, activeEffect (f st) = activeEffect st /\ group (f st) = group st.

Lemma setTheme_keeps (energy : Q) (instrument : InstrumentClassifier.Instrument) :
  keeps (fun st => setThemeByEnergyInstrument st energy instrument).
Proof.
  intros st. unfold setThemeByEnergyInstrument.
  destruct (negb _); split; reflexivity.
Qed.

Lemma emitResonance_keeps (rings : nat) :
  keeps (fun st => emitResonance st rings).
Proof. intros st. rewrite emitResonance_spec. split; reflexivity. Qed.

Lemma emitPrism_keeps (rays : nat) : keeps (fun st => emitPrism st rays).
Proof. intros st. rewrite emitPrism_spec. split; reflexivity. Qed.

Lemma emitRift_keeps (ext : Externals) (count : nat) :
  keeps (fun st => emitRift ext st count).
Proof. intros st. split; reflexivity. Qed.

Lemma createSpikes_keeps (ext : Externals) (count : nat) (low mid high : Q) :
  keeps (fun st => createSpikes ext st count low mid high).
Proof. intros st. rewrite createSpikes_spec. split; reflexivity. Qed.

Lemma triggerSpikesFromAudio_keeps (ext : Externals) (low mid high : Q) :
  keeps (fun st => triggerSpikesFromAudio ext st low mid high).
Proof.
  intros st. unfold triggerSpikesFromAudio.
  rewrite createSpikes_spec. split; reflexivity.
Qed.

Lemma updateResonance_keeps (ext : Externals) (dt : Q) :
  keeps (fun st => updateResonance ext st dt).
Proof.
  intros st. unfold updateResonance.
  destruct (resonancePool (effectGroups st)); [split; reflexivity |].
  destruct (survivors _); split; reflexivity.
Qed.

Lemma updatePrism_keeps (dt : Q) : keeps (fun st => updatePrism st dt).
Proof.
  intros st. unfold updatePrism.
  destruct (prismPool (effectGroups st)); [split; reflexivity |].
  destruct (survivors _); split; reflexivity.
Qed.

Lemma updateRift_keeps (ext : Externals) (dt : Q) :
  keeps (fun st => updateRift ext st dt).
Proof.
  intros st. unfold updateRift.
  destruct (riftPool (effectGroups st)); [split; reflexivity |].
  destruct (_ <=? 0); split; reflexivity.
Qed.

Lemma updateSpikes_keeps (ext : Externals) (dt time : Q) :
  keeps (fun st => updateSpikes ext st dt time).
Proof.
  intros st. unfold updateSpikes.
  destruct (spikesPool (effectGroups st)); [split; reflexivity |].
  destruct (survivors _); destruct (activeEffect st) eqn:E; split;
    try reflexivity; exact E.
Qed.

Lemma update_keeps (ext : Externals) (dt time : Q) :
  keeps (fun st => update ext st dt time).
Proof.
  intros st. unfold update.
  destruct (negb (group st)); [split; reflexivity |].
  destruct (updateSpikes_keeps ext dt time
              (updateRift ext (updatePrism (updateResonance ext st dt) dt) dt))
    as [-> ->].
  destruct (updateRift_keeps ext dt (updatePrism (updateResonance ext st dt) dt))
    as [-> ->].
  destruct (updatePrism_keeps dt (updateResonance ext st dt)) as [-> ->].
  apply updateResonance_keeps.
Qed.

Lemma EffectState_eqb_eq (a b : EffectState) :
  EffectState_eqb a b = true <-> a = b.
Proof. destruct a, b; simpl; split; congruence. Qed.


Lemma clearAllEffects_group (st : State) :
  group (clearAllEffects st) = group st.
Proof. rewrite clearAllEffects_spec. reflexivity. Qed.

Lemma triggerEffect_group (ext : Externals) (st : State) (kind : EffectState) :
  group (triggerEffect ext st kind) = group st.
Proof.
  destruct (group st) eqn:Hgroup.
  - destruct kind.
    + unfold triggerEffect. rewrite Hgroup. cbn [negb].
      rewrite clearAllEffects_group. exact Hgroup.
    + apply triggerEffect_state; [exact Hgroup | discriminate].
    + apply triggerEffect_state; [exact Hgroup | discriminate].
    + apply triggerEffect_state; [exact Hgroup | discriminate].
    + apply triggerEffect_state; [exact Hgroup | discriminate].
  - unfold triggerEffect. rewrite Hgroup. exact Hgroup.
Qed.

Lemma setExclusiveEffect_group
      (ext : Externals) (st : State) (kind : EffectState) :
  group (setExclusiveEffect ext st kind) = group st.
Proof.
  unfold setExclusiveEffect.
  destruct kind; try apply clearAllEffects_group;
    destruct (_ && _); try reflexivity; apply triggerEffect_group.
Qed.


End CrystalSphereProps.

(** ** Effect selector on doubles *)

Module SceneViewDoublesProps.
Import CrystalSphere SceneViewDoubles.
Open Scope float_scope.

(** Multiplication of doubles commutes, so the products of the combined
    energy can be written constant first, as the specification does. *)
Lemma SFmul_comm (x y : spec_float) : SF64mul x y = SF64mul y x.
Proof.
  unfold SF64mul, SFmul.
  destruct x as [sx | sx | | sx mx ex], y as [sy | sy | | sy my ey];
    try reflexivity; try (now rewrite xorb_comm).
  now rewrite xorb_comm, Pos.mul_comm, Z.add_comm.
Qed.

Lemma mul_comm (x y : float) : x * y = y * x.
Proof.
  rewrite <- (SF2Prim_Prim2SF (x * y)), <- (SF2Prim_Prim2SF (y * x)).
  now rewrite !mul_spec, SFmul_comm.
Qed.

(** The priority ladder in the words of the specification, its numbers
    being doubles: each rule applies when no rule above it does. *)
Section PriorityLadder.

Variables (low mid high rms : float) (beat : bool).

Definition combinedEnergy : float :=
  0.45 * low + 0.35 * mid + 0.2 * high + 0.3 * rms.

(** [x > bound] and [x < bound] on doubles. *)
Definition above (x bound : float) : Prop := (bound <? x) = true.
Definition below (x bound : float) : Prop := (x <? bound) = true.

Definition spikesRule : Prop := beat = true /\ above high 0.55.
Definition prismRule : Prop := above high 0.6 /\ above mid 0.5.
Definition resonanceRule : Prop := above mid 0.55 /\ below low 0.4.
Definition riftRule : Prop := above low 0.55.

Inductive PriorityLadder : option EffectState -> Prop :=
| choose_spikes : spikesRule -> PriorityLadder (Some spikes)
| choose_prism : ~ spikesRule -> prismRule -> PriorityLadder (Some prism)
| choose_resonance :
    ~ spikesRule -> ~ prismRule -> resonanceRule ->
    PriorityLadder (Some resonance)
| choose_rift :
    ~ spikesRule -> ~ prismRule -> ~ resonanceRule -> riftRule ->
    PriorityLadder (Some rift)
| choose_prism_by_energy :
    ~ spikesRule -> ~ prismRule -> ~ resonanceRule -> ~ riftRule ->
    above combinedEnergy 0.5 -> PriorityLadder (Some prism)
| choose_resonance_by_energy :
    ~ spikesRule -> ~ prismRule -> ~ resonanceRule -> ~ riftRule ->
    ~ above combinedEnergy 0.5 -> above combinedEnergy 0.35 ->
    PriorityLadder (Some resonance)
| no_change :
    ~ spikesRule -> ~ prismRule -> ~ resonanceRule -> ~ riftRule ->
    ~ above combinedEnergy 0.5 -> ~ above combinedEnergy 0.35 ->
    PriorityLadder None.

End PriorityLadder.

Lemma combinedEnergy_as_computed (low mid high rms : float) :
  low * 0.45 + mid * 0.35 + high * 0.2 + rms * 0.3
  = combinedEnergy low mid high rms.
Proof.
  unfold combinedEnergy.
  now rewrite (mul_comm low), (mul_comm mid), (mul_comm high), (mul_comm rms).
Qed.

Lemma spikesRule_iff (high : float) (beat : bool) :
  beat && (0.55 <? high) = true <-> spikesRule high beat.
Proof. unfold spikesRule, above. now rewrite andb_true_iff. Qed.

Lemma prismRule_iff (mid high : float) :
  (0.6 <? high) && (0.5 <? mid) = true <-> prismRule mid high.
Proof. unfold prismRule, above. now rewrite andb_true_iff. Qed.

Lemma resonanceRule_iff (low mid : float) :
  (0.55 <? mid) && (low <? 0.4) = true <-> resonanceRule low mid.
Proof. unfold resonanceRule, above, below. now rewrite andb_true_iff. Qed.

Ltac rule_fails E lemma := rewrite <- lemma; rewrite E; discriminate.

Lemma chooseEffect_on_ladder (low mid high rms : float) (beat : bool) :
  PriorityLadder low mid high rms beat (chooseEffect low mid high rms beat).
Proof.
  unfold chooseEffect. cbv zeta. rewrite combinedEnergy_as_computed.
  destruct (beat && (0.55 <? high)) eqn:E1.
  { apply choose_spikes. now apply spikesRule_iff. }
  assert (N1 : ~ spikesRule high beat) by rule_fails E1 spikesRule_iff.
  destruct ((0.6 <? high) && (0.5 <? mid)) eqn:E2.
  { apply choose_prism; [exact N1 | now apply prismRule_iff]. }
  assert (N2 : ~ prismRule mid high) by rule_fails E2 prismRule_iff.
  destruct ((0.55 <? mid) && (low <? 0.4)) eqn:E3.
  { apply choose_resonance; [exact N1 | exact N2 | now apply resonanceRule_iff]. }
  assert (N3 : ~ resonanceRule low mid) by rule_fails E3 resonanceRule_iff.
  destruct (0.55 <? low) eqn:E4.
  { apply choose_rift; [exact N1 | exact N2 | exact N3 | exact E4]. }
  assert (N4 : ~ riftRule low) by (unfold riftRule, above; rewrite E4; discriminate).
  destruct (0.5 <? combinedEnergy low mid high rms) eqn:E5.
  { apply choose_prism_by_energy; try assumption. }
  assert (N5 : ~ above (combinedEnergy low mid high rms) 0.5)
    by (unfold above; rewrite E5; discriminate).
  destruct (0.35 <? combinedEnergy low mid high rms) eqn:E6.
  { apply choose_resonance_by_energy; try assumption. }
  apply no_change; try assumption.
  unfold above. rewrite E6. discriminate.
Qed.

Lemma PriorityLadder_functional (low mid high rms : float) (beat : bool)
      (r1 r2 : option EffectState) :
  PriorityLadder low mid high rms beat r1 ->
  PriorityLadder low mid high rms beat r2 -> r1 = r2.
Proof.
  intros H1 H2. destruct H1; destruct H2; try reflexivity; contradiction.
Qed.

Lemma chooseEffect_ladder_iff (low mid high rms : float) (beat : bool)
      (r : option EffectState) :
  chooseEffect low mid high rms beat = r
  <-> PriorityLadder low mid high rms beat r.
Proof.
  split.
  - intros <-. apply chooseEffect_on_ladder.
  - intros Hr.
    apply (PriorityLadder_functional low mid high rms beat); [| exact Hr].
    apply chooseEffect_on_ladder.
Qed.

(** C2.  [chooseEffect] is the priority ladder, first match winning:
    spikes on a beat with high > 0.55; else prism when high > 0.6 and
    mid > 0.5; else resonance when mid > 0.55 and low < 0.4; else rift when
    low > 0.55; else, on the combined energy 0.45 low + 0.35 mid +
    0.2 high + 0.3 rms, prism above 0.5, resonance above 0.35 and otherwise
    no choice.  It never chooses idle, and on no choice the switch of
    [updateFromAudio] leaves the crystal and the switch time as they
    are. *)
Theorem chooseEffect_priority_ladder (low mid high rms : float) (beat : bool) :
  (forall r : option EffectState,
      chooseEffect low mid high rms beat = r
      <-> PriorityLadder low mid high rms beat r)
  /\ chooseEffect low mid high rms beat <> Some idle
  /\ (chooseEffect low mid high rms beat = None ->
      forall (ext : Externals) (c : CrystalSphere.State)
             (lastSwitch hold clock : Q),
        SceneView.applyChoice ext c lastSwitch hold clock
                              (chooseEffect low mid high rms beat)
        = (c, lastSwitch)).
Proof.
  split; [intros r; apply chooseEffect_ladder_iff |].
  split.
  - intros H. apply chooseEffect_ladder_iff in H. inversion H.
  - intros -> ext c lastSwitch hold clock. reflexivity.
Qed.

(** The rules on concrete features.  In the last one the three products
    sum to 0.35000000000000003 in doubles, above the bound 0.35 that
    their exact sum only meets. *)
Example beat_with_highs_chooses_spikes :
  chooseEffect 0.9 0.9 0.56 0.1 true = Some spikes.
Proof. reflexivity. Qed.

Example bass_chooses_rift :
  chooseEffect 0.6 0.2 0.1 0.3 false = Some rift.
Proof. reflexivity. Qed.

Example silence_chooses_no_change :
  chooseEffect 0 0 0 0 false = None.
Proof. reflexivity. Qed.

Example rounded_energy_chooses_resonance :
  combinedEnergy 0 0.5 0.5 0.25 = 0.35000000000000003
  /\ chooseEffect 0 0.5 0.5 0.25 false = Some resonance.
Proof. split; reflexivity. Qed.

End SceneViewDoublesProps.

(** ** Effect selector *)

Module SceneViewProps.
Import QNum QNumProps CrystalSphere CrystalSphereProps SceneView.
Open Scope Q_scope.

(** The priority ladder over the rationals of the scene model: each rule
    applies when no rule above it does. *)
Section Ladder.

Variables (low mid high rms : Q) (beat : bool).

Definition combinedEnergy : Q := 0.45 * low + 0.35 * mid + 0.2 * high + 0.3 * rms.

Definition rule1 : Prop := beat = true /\ 0.55 < high.
Definition rule2 : Prop := 0.6 < high /\ 0.5 < mid.
Definition rule3 : Prop := 0.55 < mid /\ low < 0.4.
Definition rule4 : Prop := 0.55 < low.

Inductive Ladder : option EffectState -> Prop :=
| ladder_spikes : rule1 -> Ladder (Some spikes)
| ladder_prism : ~ rule1 -> rule2 -> Ladder (Some prism)
| ladder_resonance : ~ rule1 -> ~ rule2 -> rule3 -> Ladder (Some resonance)
| ladder_rift : ~ rule1 -> ~ rule2 -> ~ rule3 -> rule4 -> Ladder (Some rift)
| ladder_energy_prism :
    ~ rule1 -> ~ rule2 -> ~ rule3 -> ~ rule4 ->
    0.5 < combinedEnergy -> Ladder (Some prism)
| ladder_energy_resonance :
    ~ rule1 -> ~ rule2 -> ~ rule3 -> ~ rule4 ->
    ~ 0.5 < combinedEnergy -> 0.35 < combinedEnergy ->
    Ladder (Some resonance)
| ladder_no_change :
    ~ rule1 -> ~ rule2 -> ~ rule3 -> ~ rule4 ->
    ~ 0.5 < combinedEnergy -> ~ 0.35 < combinedEnergy ->
    Ladder None.

End Ladder.

Lemma combinedEnergy_code (low mid high rms : Q) :
  low * 0.45 + mid * 0.35 + high * 0.2 + rms * 0.3
  == combinedEnergy low mid high rms.
Proof. unfold combinedEnergy. ring. Qed.

Lemma rule1_iff (high : Q) (beat : bool) :
  beat && (high >? 0.55) = true <-> rule1 high beat.
Proof.
  unfold rule1. rewrite andb_true_iff, gtb_true_iff. reflexivity.
Qed.

Lemma rule2_iff (mid high : Q) :
  (high >? 0.6) && (mid >? 0.5) = true <-> rule2 mid high.
Proof.
  unfold rule2. rewrite andb_true_iff, !gtb_true_iff. reflexivity.
Qed.

Lemma rule3_iff (low mid : Q) :
  (mid >? 0.55) && (low <? 0.4) = true <-> rule3 low mid.
Proof.
  unfold rule3. rewrite andb_true_iff, gtb_true_iff, ltb_true_iff.
  reflexivity.
Qed.

Lemma rule4_iff (low : Q) : (low >? 0.55) = true <-> rule4 low.
Proof. apply gtb_true_iff. Qed.

Lemma energy_gtb_iff (low mid high rms bound : Q) :
  (low * 0.45 + mid * 0.35 + high * 0.2 + rms * 0.3 >? bound) = true
  <-> bound < combinedEnergy low mid high rms.
Proof.
  rewrite gtb_true_iff, combinedEnergy_code. reflexivity.
Qed.

Ltac not_rule E lemma := rewrite <- lemma; rewrite E; discriminate.

(** The selector returns what the ladder prescribes. *)
Lemma chooseEffect_sound (low mid high rms : Q) (beat : bool) :
  Ladder low mid high rms beat (chooseEffect low mid high rms beat).
Proof.
  unfold chooseEffect.
  destruct (beat && (high >? 0.55)) eqn:E1.
  { apply ladder_spikes. now apply rule1_iff. }
  assert (N1 : ~ rule1 high beat) by not_rule E1 rule1_iff.
  destruct ((high >? 0.6) && (mid >? 0.5)) eqn:E2.
  { apply ladder_prism; [exact N1 | now apply rule2_iff]. }
  assert (N2 : ~ rule2 mid high) by not_rule E2 rule2_iff.
  destruct ((mid >? 0.55) && (low <? 0.4)) eqn:E3.
  { apply ladder_resonance; [exact N1 | exact N2 | now apply rule3_iff]. }
  assert (N3 : ~ rule3 low mid) by not_rule E3 rule3_iff.
  destruct (low >? 0.55) eqn:E4.
  { apply ladder_rift; [exact N1 | exact N2 | exact N3 | now apply rule4_iff]. }
  assert (N4 : ~ rule4 low) by not_rule E4 rule4_iff.
  destruct (low * 0.45 + mid * 0.35 + high * 0.2 + rms * 0.3 >? 0.5) eqn:E5.
  { apply ladder_energy_prism; try assumption. now apply energy_gtb_iff. }
  assert (N5 : ~ 0.5 < combinedEnergy low mid high rms)
    by not_rule E5 energy_gtb_iff.
  destruct (low * 0.45 + mid * 0.35 + high * 0.2 + rms * 0.3 >? 0.35) eqn:E6.
  { apply ladder_energy_resonance; try assumption.
    now apply energy_gtb_iff. }
  assert (N6 : ~ 0.35 < combinedEnergy low mid high rms)
    by not_rule E6 energy_gtb_iff.
  apply ladder_no_change; assumption.
Qed.

(** The ladder prescribes one outcome only. *)
Lemma Ladder_functional (low mid high rms : Q) (beat : bool)
      (r1 r2 : option EffectState) :
  Ladder low mid high rms beat r1 -> Ladder low mid high rms beat r2 ->
  r1 = r2.
Proof.
  intros H1 H2. destruct H1; destruct H2; try reflexivity; contradiction.
Qed.

Lemma chooseEffect_iff (low mid high rms : Q) (beat : bool)
      (r : option EffectState) :
  chooseEffect low mid high rms beat = r <-> Ladder low mid high rms beat r.
Proof.
  split.
  - intros <-. apply chooseEffect_sound.
  - intros Hr.
    apply (Ladder_functional low mid high rms beat); [| exact Hr].
    apply chooseEffect_sound.
Qed.

Lemma chooseEffect_not_idle (low mid high rms : Q) (beat : bool) :
  chooseEffect low mid high rms beat <> Some idle.
Proof.
  intros H. apply chooseEffect_iff in H. inversion H.
Qed.

Example sustained_bass_chooses_rift :
  chooseEffect 0.6 0.2 0.1 0.3 false = Some rift.
Proof. reflexivity. Qed.

Example silence_chooses_nothing :
  chooseEffect 0 0 0 0 false = None.
Proof. reflexivity. Qed.

(** *** The hold time *)














Lemma scene_run_states (ext : Externals) (es : list Event) :
  forall s, run ext s es = HoldTimer.states _ _ (step ext) s es.
Proof.
  induction es as [| e rest IH]; intros s; simpl; [reflexivity |].
  now rewrite IH.
Qed.



(** Mids at 4 s, highs at 6 s (held back), an animation frame, highs again
    at 8 s. *)
Definition mids_then_highs : list Event :=
  [ Audio (mkFrame 4 0.3 0.1 0.6 0.1 false);
    Audio (mkFrame 6 0.3 0.1 0.6 0.7 false);
    Animate 6.01;
    Audio (mkFrame 8 0.3 0.1 0.6 0.7 false) ].

Example mids_then_highs_kinds :
  map activeKind (run sampleExternals SceneView.new mids_then_highs)
  = [Some resonance; Some resonance; Some resonance; Some prism].
Proof. lazy. reflexivity. Qed.


(** A sustained bass: the selector goes to rift once the hold time since
    start-up has passed, and stays there. *)
Example sustained_bass_converges_to_rift :
  map activeKind
      (run sampleExternals SceneView.new
           [ Audio (mkFrame 1 0.3 0.6 0.2 0.1 false);
             Audio (mkFrame 3.5 0.3 0.6 0.2 0.1 false);
             Audio (mkFrame 5 0.3 0.6 0.2 0.1 false) ])
  = [Some idle; Some rift; Some rift].
Proof. lazy. reflexivity. Qed.

End SceneViewProps.

(* ================================================================== *)
(** * Part III: further properties *)
(* ================================================================== *)

(** ** Beat detector over runs *)

Module AudioEngineRuns.
Import AudioEngine AudioEngineProps.
Open Scope float_scope.

(** *** NaN in the energy history *)

Lemma is_nan_eq (x : float) : is_nan x = true <-> x = nan.
Proof.
  split.
  - unfold is_nan. rewrite FloatAxioms.eqb_spec. intros H.
    rewrite <- (SF2Prim_Prim2SF x).
    destruct (Prim2SF x) as [s | s | | s m e] eqn:E; try reflexivity;
      simpl in H.
    + discriminate.
    + destruct s; discriminate.
    + unfold SFeqb in H. simpl in H.
      destruct s;
        rewrite Z.compare_refl, Pos.compare_cont_refl in H; discriminate.
  - intros ->. reflexivity.
Qed.

Lemma of_spec (x : float) (s : spec_float) : Prim2SF x = s -> x = SF2Prim s.
Proof. intros <-. symmetry. apply SF2Prim_Prim2SF. Qed.

Lemma add_nan_l (x : float) : nan + x = nan.
Proof. apply (of_spec _ S754_nan). rewrite add_spec. reflexivity. Qed.

Lemma add_nan_r (x : float) : x + nan = nan.
Proof.
  apply (of_spec _ S754_nan). rewrite add_spec. simpl.
  unfold SF64add, SFadd. destruct (Prim2SF x); reflexivity.
Qed.

Lemma sub_nan_r (x : float) : x - nan = nan.
Proof.
  apply (of_spec _ S754_nan). rewrite sub_spec. simpl.
  unfold SF64sub, SFsub. destruct (Prim2SF x); reflexivity.
Qed.

Lemma mul_nan_l (x : float) : nan * x = nan.
Proof. apply (of_spec _ S754_nan). rewrite mul_spec. reflexivity. Qed.

Lemma mul_nan_r (x : float) : x * nan = nan.
Proof.
  apply (of_spec _ S754_nan). rewrite mul_spec. simpl.
  unfold SF64mul, SFmul. destruct (Prim2SF x); reflexivity.
Qed.

Lemma div_nan_l (x : float) : nan / x = nan.
Proof. apply (of_spec _ S754_nan). rewrite div_spec. reflexivity. Qed.

Lemma ltb_nan_l (x : float) : (nan <? x) = false.
Proof. rewrite ltb_spec. reflexivity. Qed.

(** A sum that met NaN stays NaN. *)
Lemma sum_from_nan (l : list float) :
  fold_left (fun s v => s + v) l nan = nan.
Proof.
  induction l as [| v l IH]; simpl; [reflexivity |].
  now rewrite add_nan_l.
Qed.

Lemma sum_with_nan (l : list float) :
  forall acc, In nan l -> fold_left (fun s v => s + v) l acc = nan.
Proof.
  induction l as [| v l IH]; intros acc Hin; simpl; [contradiction |].
  destruct Hin as [-> | Hin].
  - rewrite add_nan_r. apply sum_from_nan.
  - now apply IH.
Qed.

Lemma averageArray_nan (h : list float) :
  In nan h -> averageArray h = nan.
Proof.
  intros Hin. unfold averageArray.
  destruct h as [| x h]; [contradiction |].
  rewrite (sum_with_nan (x :: h) 0 Hin). apply div_nan_l.
Qed.

Lemma squares_from_nan (l : list float) (mean : float) :
  fold_left (fun variance e => let d := e - mean in variance + d * d) l nan
  = nan.
Proof.
  induction l as [| v l IH]; simpl; [reflexivity |].
  now rewrite add_nan_l.
Qed.

Lemma varianceOf_nan_mean (h : list float) :
  h <> [] -> varianceOf h nan = nan.
Proof.
  intros Hne. unfold varianceOf.
  destruct h as [| x h]; [contradiction |]. simpl.
  rewrite sub_nan_r, mul_nan_l, add_nan_r, squares_from_nan.
  apply div_nan_l.
Qed.

Lemma threshold_nan (h : list float) (sensitivity : float) :
  In nan h -> threshold h sensitivity = nan.
Proof.
  intros Hin. unfold threshold. cbv zeta.
  rewrite (averageArray_nan h Hin). apply add_nan_l.
Qed.

(** With NaN in the window no beat is reported. *)
Lemma detectBeat_nan_window (st : State) (energy nowSec : float) :
  In nan (pushEnergy (energyHistory st) energy) ->
  snd (detectBeat st energy nowSec) = false.
Proof.
  intros Hin. unfold detectBeat. cbv zeta.
  destruct (length _ <? 8)%nat; [reflexivity |]. simpl.
  rewrite (threshold_nan _ _ Hin), ltb_nan_l. apply andb_false_r.
Qed.

(** NaN sits in the history with [r] samples after it. *)
Definition nanAt (h : list float) (r : nat) : Prop :=
  exists pre post, h = pre ++ nan :: post /\ length post = r.

Lemma nanAt_In (h : list float) (r : nat) : nanAt h r -> In nan h.
Proof.
  intros (pre & post & -> & _). apply in_or_app. right. now left.
Qed.

Lemma pushEnergy_nanAt (h : list float) (r : nat) (e : float) :
  nanAt h r -> (r <= 41)%nat -> nanAt (pushEnergy h e) (S r).
Proof.
  intros (pre & post & -> & Hr) Hle. unfold pushEnergy.
  destruct (Nat.ltb_spec maxEnergyHistory
                         (length ((pre ++ nan :: post) ++ [e])))
    as [Hlong | Hshort].
  - destruct pre as [| p pre].
    + exfalso. simpl in Hlong. rewrite length_app in Hlong. simpl in Hlong.
      unfold maxEnergyHistory in Hlong. lia.
    + exists pre, (post ++ [e]). split.
      * simpl. now rewrite <- app_assoc.
      * rewrite length_app. simpl. lia.
  - exists pre, (post ++ [e]). split.
    + now rewrite <- app_assoc.
    + rewrite length_app. simpl. lia.
Qed.

Lemma pushEnergy_nan (h : list float) : nanAt (pushEnergy h nan) 0.
Proof.
  unfold pushEnergy.
  destruct (maxEnergyHistory <? length (h ++ [nan]))%nat eqn:E.
  - destruct h as [| x h].
    + discriminate.
    + exists h, []. split; reflexivity.
  - exists h, []. split; reflexivity.
Qed.

Lemma detectBeats_cons (st : State) (energy nowSec : float)
      (rest : list (float * float)) :
  detectBeats st ((energy, nowSec) :: rest)
  = (fst (detectBeats (fst (detectBeat st energy nowSec)) rest),
     snd (detectBeat st energy nowSec)
     :: snd (detectBeats (fst (detectBeat st energy nowSec)) rest)).
Proof.
  simpl. destruct (detectBeat st energy nowSec) as [st1 b]. simpl.
  destruct (detectBeats st1 rest) as [st2 bs]. reflexivity.
Qed.

Lemma silent_while_nan (samples : list (float * float)) :
  forall (st : State) (r : nat),
    nanAt (energyHistory st) r -> (r + length samples <= 42)%nat ->
    Forall (fun b => b = false) (snd (detectBeats st samples)).
Proof.
  induction samples as [| [energy nowSec] rest IH]; intros st r Hnan Hlen.
  - constructor.
  - rewrite detectBeats_cons. simpl in *.
    assert (Hnext : nanAt (pushEnergy (energyHistory st) energy) (S r))
      by (apply pushEnergy_nanAt; [exact Hnan | lia]).
    constructor.
    + apply detectBeat_nan_window. exact (nanAt_In _ _ Hnext).
    + apply (IH _ (S r)); [| lia].
      now rewrite detectBeat_history.
Qed.

(** X1.  A NaN energy sample (what [computeInstantEnergy] returns for an
    empty buffer) silences the detector: no beat is reported on that tick
    nor on the 42 ticks after it, whatever their energies and times. *)
Theorem nan_energy_silences_detector
        (st : State) (nowSec : float) (samples : list (float * float)) :
  (length samples <= 42)%nat ->
  Forall (fun b => b = false)
         (snd (detectBeats st ((computeInstantEnergy [], nowSec) :: samples))).
Proof.
  intros Hlen.
  change (computeInstantEnergy []) with nan.
  rewrite detectBeats_cons. constructor.
  - apply detectBeat_nan_window. exact (nanAt_In _ _ (pushEnergy_nan _)).
  - apply (silent_while_nan samples _ 0); [| simpl; exact Hlen].
    rewrite detectBeat_history. apply pushEnergy_nan.
Qed.

(** After the warm-up, an empty buffer and then a full-scale one. *)
Lemma nan_energy_silences_detector_witness :
  Forall (fun b => b = false)
         (snd (detectBeats afterWarmup
                 [(computeInstantEnergy [], 0.5);
                  (computeInstantEnergy loud, 1)])).
Proof.
  apply (nan_energy_silences_detector
           afterWarmup 0.5 [(computeInstantEnergy loud, 1)]).
  simpl. lia.
Defined.

(** *** The sliding window *)

(** The last [n] elements of a list. *)
Definition lastN {A : Type} (n : nat) (l : list A) : list A :=
  skipn (length l - n) l.

Lemma lastN_short {A : Type} (n : nat) (l : list A) :
  (length l <= n)%nat -> lastN n l = l.
Proof.
  intros Hle. unfold lastN.
  replace (length l - n)%nat with 0%nat by lia. reflexivity.
Qed.

Lemma lastN_length {A : Type} (n : nat) (l : list A) :
  (length (lastN n l) <= n)%nat.
Proof. unfold lastN. rewrite length_skipn. lia. Qed.

Lemma lastN_app {A : Type} (n : nat) (a b : list A) :
  lastN n (lastN n a ++ b) = lastN n (a ++ b).
Proof.
  destruct (Nat.le_gt_cases (length a) n) as [Hle | Hgt].
  - now rewrite (lastN_short n a Hle).
  - unfold lastN. rewrite !length_app, length_skipn.
    replace (length a - (length a - n) + length b - n)%nat
      with (length b) by lia.
    replace (length a + length b - n)%nat
      with ((length a - n) + length b)%nat by lia.
    rewrite (Nat.add_comm (length a - n)), <- skipn_skipn.
    rewrite (skipn_app (length a - n) a b).
    replace (length a - n - length a)%nat with 0%nat by lia.
    reflexivity.
Qed.

Lemma pushEnergy_lastN (h : list float) (e : float) :
  (length h <= maxEnergyHistory)%nat ->
  pushEnergy h e = lastN maxEnergyHistory (h ++ [e]).
Proof.
  intros Hle. unfold pushEnergy, lastN. rewrite length_app. simpl.
  destruct (Nat.ltb_spec maxEnergyHistory (length h + 1)) as [Hlong | Hshort].
  - replace (length h + 1 - maxEnergyHistory)%nat with 1%nat by lia.
    destruct (h ++ [e]); reflexivity.
  - replace (length h + 1 - maxEnergyHistory)%nat with 0%nat by lia.
    reflexivity.
Qed.

(** X2.  The energy history is a sliding window: after any run it holds
    the last 43 samples of the history it started from followed by the
    energies of the run, oldest first, and never more than 43. *)
Theorem energyHistory_sliding_window
        (samples : list (float * float)) (st : State) :
  (length (energyHistory st) <= maxEnergyHistory)%nat ->
  energyHistory (fst (detectBeats st samples))
  = lastN maxEnergyHistory (energyHistory st ++ map fst samples)
  /\ (length (energyHistory (fst (detectBeats st samples)))
      <= maxEnergyHistory)%nat.
Proof.
  intros Hst. split; [| now apply detectBeats_history_bounded].
  revert st Hst.
  induction samples as [| [energy nowSec] rest IH]; intros st Hst.
  - simpl. rewrite app_nil_r. symmetry. now apply lastN_short.
  - rewrite detectBeats_cons. cbn [fst map].
    rewrite IH; rewrite detectBeat_history.
    + rewrite (pushEnergy_lastN _ _ Hst), lastN_app, <- app_assoc.
      reflexivity.
    + now apply pushEnergy_length.
Qed.

(** Forty-five samples into a fresh engine: the first two are gone. *)
Lemma energyHistory_sliding_window_witness :
  energyHistory
    (fst (detectBeats init (map (fun i => (JSMath.of_nat i, 0)) (seq 0 45))))
  = map JSMath.of_nat (seq 2 43).
Proof.
  refine (eq_trans
            (proj1 (energyHistory_sliding_window
                      (map (fun i => (JSMath.of_nat i, 0)) (seq 0 45))
                      init _))
            _).
  - simpl. unfold maxEnergyHistory. lia.
  - vm_compute. reflexivity.
Defined.

(** *** Warm-up and debounce *)

Lemma pushEnergy_length_le (h : list float) (e : float) :
  (length (pushEnergy h e) <= S (length h))%nat.
Proof.
  unfold pushEnergy. destruct (_ <? _)%nat.
  - rewrite length_tl, length_app. simpl. lia.
  - rewrite length_app. simpl. lia.
Qed.

(** X3.  While the history holds fewer than 8 samples the detector only
    accumulates: a run that leaves it below 8 reports no beat and keeps
    the recorded beat time, however loud the samples are. *)
Theorem no_beat_during_warmup
        (samples : list (float * float)) (st : State) :
  (length (energyHistory st) + length samples < 8)%nat ->
  Forall (fun b => b = false) (snd (detectBeats st samples))
  /\ lastBeatAt (fst (detectBeats st samples)) = lastBeatAt st.
Proof.
  revert st.
  induction samples as [| [energy nowSec] rest IH]; intros st Hlen.
  - split; [constructor | reflexivity].
  - rewrite detectBeats_cons. cbn [fst snd]. simpl in Hlen.
    assert (Hquiet : snd (detectBeat st energy nowSec) = false).
    { destruct (snd (detectBeat st energy nowSec)) eqn:E; [| reflexivity].
      apply detectBeat_isBeat_iff in E. destruct E as [Hlong _].
      pose proof (pushEnergy_length_le (energyHistory st) energy). lia. }
    destruct (IH (fst (detectBeat st energy nowSec))) as [IHb IHl].
    + rewrite detectBeat_history.
      pose proof (pushEnergy_length_le (energyHistory st) energy). lia.
    + split; [constructor; assumption |].
      rewrite IHl, detectBeat_lastBeatAt, Hquiet. reflexivity.
Qed.

Lemma no_beat_during_warmup_witness :
  Forall (fun b => b = false)
         (snd (detectBeats init
                 [(computeInstantEnergy loud, 1);
                  (computeInstantEnergy silent, 2);
                  (computeInstantEnergy loud, 3)]))
  /\ lastBeatAt
       (fst (detectBeats init
               [(computeInstantEnergy loud, 1);
                (computeInstantEnergy silent, 2);
                (computeInstantEnergy loud, 3)]))
     = lastBeatAt init.
Proof.
  apply (no_beat_during_warmup
           [(computeInstantEnergy loud, 1);
            (computeInstantEnergy silent, 2);
            (computeInstantEnergy loud, 3)] init).
  simpl. lia.
Defined.

(** The clock readings of the samples of a run on which a beat fired. *)
Definition firedTimes (st : State) (samples : list (float * float))
  : list float :=
  map (fun p => snd (snd p))
      (filter fst (combine (snd (detectBeats st samples)) samples)).

(** Each time is more than [minInterval] after the one before it, as the
    doubles subtract and compare. *)
Fixpoint spaced (previous : float) (times : list float) : Prop :=
  match times with
  | [] => True
  | t :: rest => (minInterval <? t - previous) = true /\ spaced t rest
  end.

(** X4.  Over any run, every fired beat is more than 120 ms after the
    beat fired before it (after the recorded beat time, for the first),
    at any sensitivity: the detector never fires twice within 120 ms. *)
Theorem fired_beats_spaced (samples : list (float * float)) (st : State) :
  spaced (lastBeatAt st) (firedTimes st samples).
Proof.
  revert st.
  induction samples as [| [energy nowSec] rest IH]; intros st.
  - exact I.
  - unfold firedTimes. rewrite detectBeats_cons. cbn [snd combine filter fst].
    specialize (IH (fst (detectBeat st energy nowSec))).
    rewrite detectBeat_lastBeatAt in IH. unfold firedTimes in IH.
    destruct (snd (detectBeat st energy nowSec)) eqn:E; cbn [map snd].
    + split; [| exact IH].
      apply detectBeat_isBeat_iff in E. apply E.
    + exact IH.
Qed.

Lemma setBeatSensitivity_clamped_witness :
  (0 <=? beatSensitivity (setBeatSensitivity init 1.7)) = true
  /\ (beatSensitivity (setBeatSensitivity init 1.7) <=? 1) = true.
Proof.
  apply (setBeatSensitivity_clamped init 1.7). reflexivity.
Defined.

(** *** NaN as the sensitivity *)

Lemma threshold_nan_sensitivity (h : list float) : threshold h nan = nan.
Proof.
  unfold threshold. cbv zeta.
  now rewrite mul_nan_r, sub_nan_r, mul_nan_l, add_nan_r.
Qed.

Lemma silent_with_nan_sensitivity (samples : list (float * float)) :
  forall st : State,
    beatSensitivity st = nan ->
    Forall (fun b => b = false) (snd (detectBeats st samples)).
Proof.
  induction samples as [| [energy nowSec] rest IH]; intros st Hs.
  - constructor.
  - rewrite detectBeats_cons. simpl. constructor.
    + unfold detectBeat. cbv zeta.
      destruct (length _ <? 8)%nat; [reflexivity |]. simpl.
      rewrite Hs, threshold_nan_sensitivity, ltb_nan_l.
      apply andb_false_r.
    + apply IH. now rewrite detectBeat_sensitivity.
Qed.

(** X28.  The clamp of [setBeatSensitivity] does not catch NaN: it is
    stored as it is, and from then on the detector reports no beat,
    whatever the energies and the times, until the sensitivity is set
    again. *)
Theorem nan_sensitivity_silences_detector
        (st : State) (samples : list (float * float)) :
  beatSensitivity (setBeatSensitivity st nan) = nan
  /\ Forall (fun b => b = false)
            (snd (detectBeats (setBeatSensitivity st nan) samples)).
Proof.
  split; [reflexivity |].
  apply silent_with_nan_sensitivity. reflexivity.
Qed.

Example nan_sensitivity_misses_the_warmup_beat :
  snd (detectBeats init warmup)
  <> snd (detectBeats (setBeatSensitivity init nan) warmup).
Proof. vm_compute. discriminate. Qed.

(** *** Short spectra *)

(** X26.  With fewer than three bins the thirds are empty: the low and
    the mid band read 0 whatever the bins hold, and the high band is the
    average over all of them. *)
Theorem computeBands_short_buffer (freq : list byte) :
  (length freq < 3)%nat ->
  low (computeBands freq) = 0
  /\ mid (computeBands freq) = 0
  /\ high (computeBands freq) = average freq 0 (length freq).
Proof.
  intros Hshort. unfold computeBands. cbn [low mid high].
  rewrite (Nat.div_small _ _ Hshort). cbn [Nat.mul].
  rewrite !average_empty_range. repeat split.
Qed.

Lemma computeBands_short_buffer_witness :
  low (computeBands [xff; xff]) = 0
  /\ mid (computeBands [xff; xff]) = 0
  /\ high (computeBands [xff; xff]) = average [xff; xff] 0 2.
Proof.
  apply (computeBands_short_buffer [xff; xff]). simpl. lia.
Defined.

Example two_loud_bins_are_all_high :
  computeBands [xff; xff] = {| low := 0; mid := 0; high := 1 |}.
Proof. vm_compute. reflexivity. Qed.

End AudioEngineRuns.

(** ** Instrument heuristics *)

Module InstrumentClassifierMore.
Import QNum QNumProps InstrumentClassifier InstrumentClassifierProps.
Open Scope Q_scope.

Lemma drums_test (mid high : Q) (beat : bool) :
  beat && (high >? 0.5) && (mid <? 0.6) = true
  <-> beat = true /\ 0.5 < high /\ mid < 0.6.
Proof.
  rewrite !andb_true_iff, gtb_true_iff, ltb_true_iff. tauto.
Qed.

Lemma bass_test (low mid : Q) :
  (low >? 0.45) && (mid <? 0.35) = true <-> 0.45 < low /\ mid < 0.35.
Proof. rewrite andb_true_iff, gtb_true_iff, ltb_true_iff. tauto. Qed.

Lemma guitar_test (mid high : Q) :
  (mid >? 0.5) && (high <? 0.5) = true <-> 0.5 < mid /\ high < 0.5.
Proof. rewrite andb_true_iff, gtb_true_iff, ltb_true_iff. tauto. Qed.

Lemma classifyInstant_cases (rms low mid high : Q) (beat : bool) :
  (classifyInstant rms low mid high beat = drums
   /\ beat = true /\ 0.5 < high /\ mid < 0.6)
  \/ (classifyInstant rms low mid high beat = bass
      /\ ~ (beat = true /\ 0.5 < high /\ mid < 0.6)
      /\ 0.45 < low /\ mid < 0.35)
  \/ (classifyInstant rms low mid high beat = guitar
      /\ ~ (beat = true /\ 0.5 < high /\ mid < 0.6)
      /\ ~ (0.45 < low /\ mid < 0.35)
      /\ 0.5 < mid /\ high < 0.5)
  \/ (classifyInstant rms low mid high beat = none
      /\ ~ (beat = true /\ 0.5 < high /\ mid < 0.6)
      /\ ~ (0.45 < low /\ mid < 0.35)
      /\ ~ (0.5 < mid /\ high < 0.5)).
Proof.
  unfold classifyInstant.
  destruct (beat && (high >? 0.5) && (mid <? 0.6)) eqn:E1.
  { left. split; [reflexivity | now apply drums_test]. }
  assert (N1 : ~ (beat = true /\ 0.5 < high /\ mid < 0.6))
    by (rewrite <- drums_test, E1; discriminate).
  destruct ((low >? 0.45) && (mid <? 0.35)) eqn:E2.
  { right. left. split; [reflexivity |]. split; [exact N1 |].
    now apply bass_test. }
  assert (N2 : ~ (0.45 < low /\ mid < 0.35))
    by (rewrite <- bass_test, E2; discriminate).
  destruct ((mid >? 0.5) && (high <? 0.5)) eqn:E3.
  { right. right. left. split; [reflexivity |]. split; [exact N1 |].
    split; [exact N2 |]. now apply guitar_test. }
  assert (N3 : ~ (0.5 < mid /\ high < 0.5))
    by (rewrite <- guitar_test, E3; discriminate).
  right. right. right.
  split; [destruct (rms <? 0.08); reflexivity | tauto].
Qed.

(** X6.  What decides each label: drums needs a beat with high > 0.5 and
    mid < 0.6; guitar is decided by mid > 0.5 and high < 0.5 alone,
    whatever the beat flag and the low band; bass needs low > 0.45 and
    mid < 0.35 and only gives way to drums (a beat with high > 0.5).  The
    order of the tests matters between drums and bass only. *)
Theorem classifyInstant_conditions (rms low mid high : Q) (beat : bool) :
  (classifyInstant rms low mid high beat = drums
   <-> beat = true /\ 0.5 < high /\ mid < 0.6)
  /\ (classifyInstant rms low mid high beat = bass
      <-> 0.45 < low /\ mid < 0.35 /\ ~ (beat = true /\ 0.5 < high))
  /\ (classifyInstant rms low mid high beat = guitar
      <-> 0.5 < mid /\ high < 0.5).
Proof.
  destruct (classifyInstant_cases rms low mid high beat)
    as [(-> & Hd) | [(-> & Nd & Hb) | [(-> & Nd & Nb & Hg) | (-> & Nd & Nb & Ng)]]].
  - intuition (discriminate || lra || idtac).
  - assert (Hmid : mid < 0.6) by lra.
    intuition (discriminate || lra || idtac).
  - intuition (discriminate || lra || idtac).
  - intuition (discriminate || lra || idtac).
Qed.

(** X7.  The RMS argument never reaches the result: both outcomes of the
    test [rms < 0.08] are 'none', so the label, and with it the state of
    the classifier, is the same for any two RMS values. *)
Theorem update_ignores_rms
        (st : State) (t rms1 rms2 low mid high : Q) (beat : bool) :
  classifyInstant rms1 low mid high beat
  = classifyInstant rms2 low mid high beat
  /\ update st (mkCall t rms1 low mid high beat)
     = update st (mkCall t rms2 low mid high beat).
Proof.
  assert (H : classifyInstant rms1 low mid high beat
              = classifyInstant rms2 low mid high beat).
  { unfold classifyInstant.
    destruct (beat && (high >? 0.5) && (mid <? 0.6)); [reflexivity |].
    destruct ((low >? 0.45) && (mid <? 0.35)); [reflexivity |].
    destruct ((mid >? 0.5) && (high <? 0.5)); [reflexivity |].
    destruct (rms1 <? 0.08), (rms2 <? 0.08); reflexivity. }
  split; [exact H |].
  unfold update. cbn [InstrumentClassifier.rms InstrumentClassifier.low
                      InstrumentClassifier.mid InstrumentClassifier.high
                      InstrumentClassifier.beat timeSec].
  now rewrite H.
Qed.

(** A call that comes less than [holdSeconds] after the recorded switch
    changes nothing. *)
Lemma update_within_hold (st : State) (c : Call) :
  timeSec c - lastSwitchAt st < holdSeconds st ->
  update st c = (st, current st).
Proof.
  intros Hgap. apply update_spec. intros [_ Hle].
  apply (Qlt_not_le _ _ Hgap Hle).
Qed.

(** X8.  The hold: calls that come less than [holdSeconds] after the
    recorded switch all return the current label and leave the classifier
    as it is, whatever they propose. *)
Theorem label_held_during_hold (calls : list Call) (st : State) :
  Forall (fun c => timeSec c - lastSwitchAt st < holdSeconds st) calls ->
  Forall (fun l => l = current st) (labels st calls)
  /\ Forall (fun s => s = st) (run st calls).
Proof.
  induction 1 as [| c rest Hc Hrest IH]; simpl.
  - split; constructor.
  - rewrite (update_within_hold st c Hc). simpl.
    destruct IH as [IHl IHs]. split; constructor; auto.
Qed.

(** A classifier that accepted 'bass' at 5 s is offered drums and guitar
    before 10 s. *)
Definition bassAt5 : State :=
  fst (update (new 5) (mkCall 5 0.3 0.6 0.2 0.1 false)).

Lemma label_held_during_hold_witness :
  Forall (fun l => l = bass)
         (labels bassAt5 [mkCall 6 0.5 0.1 0.2 0.9 true;
                          mkCall 9.9 0.5 0.1 0.7 0.1 false])
  /\ Forall (fun s => s = bassAt5)
            (run bassAt5 [mkCall 6 0.5 0.1 0.2 0.9 true;
                          mkCall 9.9 0.5 0.1 0.7 0.1 false]).
Proof.
  apply (label_held_during_hold
           [mkCall 6 0.5 0.1 0.2 0.9 true; mkCall 9.9 0.5 0.1 0.7 0.1 false]
           bassAt5).
  repeat constructor.
Defined.

End InstrumentClassifierMore.

(** ** Effect lifecycle *)

Module CrystalSphereMore.
Import QNum QNumProps CrystalSphere CrystalSphereProps.
Open Scope Q_scope.

(** *** What an update changes *)

Lemma with_resonancePool_same (p : Pools) :
  with_resonancePool p (resonancePool p) = p.
Proof. destruct p; reflexivity. Qed.

Lemma with_prismPool_same (p : Pools) : with_prismPool p (prismPool p) = p.
Proof. destruct p; reflexivity. Qed.

Lemma with_spikesPool_same (p : Pools) : with_spikesPool p (spikesPool p) = p.
Proof. destruct p; reflexivity. Qed.

Lemma with_riftPool_same (p : Pools) : with_riftPool p (riftPool p) = p.
Proof. destruct p; reflexivity. Qed.

Lemma updateResonance_pools (ext : Externals) (st : State) (dt : Q) :
  effectGroups (updateResonance ext st dt)
  = with_resonancePool
      (effectGroups st)
      (survivors (map (stepRing ext dt) (resonancePool (effectGroups st))))
  /\ disposed (updateResonance ext st dt)
     = disposed st
       ++ casualties ringId
            (map (stepRing ext dt) (resonancePool (effectGroups st))).
Proof.
  unfold updateResonance.
  destruct (resonancePool (effectGroups st)) as [| w pool] eqn:E.
  - cbn [map survivors casualties filter]. rewrite app_nil_r, <- E.
    now rewrite with_resonancePool_same.
  - destruct (survivors _); split; reflexivity.
Qed.

Lemma updatePrism_pools (st : State) (dt : Q) :
  effectGroups (updatePrism st dt)
  = with_prismPool
      (effectGroups st)
      (survivors (map (stepRay dt) (prismPool (effectGroups st))))
  /\ disposed (updatePrism st dt)
     = disposed st
       ++ casualties rayId (map (stepRay dt) (prismPool (effectGroups st))).
Proof.
  unfold updatePrism.
  destruct (prismPool (effectGroups st)) as [| r pool] eqn:E.
  - cbn [map survivors casualties filter]. rewrite app_nil_r, <- E.
    now rewrite with_prismPool_same.
  - destruct (survivors _); split; reflexivity.
Qed.

Lemma updateSpikes_pools (ext : Externals) (st : State) (dt time : Q) :
  effectGroups (updateSpikes ext st dt time)
  = with_spikesPool
      (effectGroups st)
      (survivors (map (stepSpike ext dt time) (spikesPool (effectGroups st))))
  /\ disposed (updateSpikes ext st dt time)
     = disposed st
       ++ casualties spikeId
            (map (stepSpike ext dt time) (spikesPool (effectGroups st))).
Proof.
  unfold updateSpikes.
  destruct (spikesPool (effectGroups st)) as [| s pool] eqn:E.
  - cbn [map survivors casualties filter]. rewrite app_nil_r, <- E.
    now rewrite with_spikesPool_same.
  - destruct (survivors _); destruct (activeEffect st); split; reflexivity.
Qed.

(** The first batch after a tick, and whether it stays. *)
Definition stepBatch (ext : Externals) (dt : Q) (neb : Batch) : Batch * bool :=
  (mkBatch (batchId neb) (map (stepParticle ext dt) (particles neb))
           (batchOpacity neb - dt * 0.4),
   negb (batchOpacity neb - dt * 0.4 <=? 0)).

Lemma updateRift_pools (ext : Externals) (st : State) (dt : Q) :
  effectGroups (updateRift ext st dt)
  = with_riftPool
      (effectGroups st)
      (match riftPool (effectGroups st) with
       | [] => []
       | neb :: rest =>
           survivors [stepBatch ext dt neb] ++ rest
       end)
  /\ disposed (updateRift ext st dt)
     = disposed st
       ++ match riftPool (effectGroups st) with
          | [] => []
          | neb :: rest => casualties batchId [stepBatch ext dt neb]
          end.
Proof.
  unfold updateRift.
  destruct (riftPool (effectGroups st)) as [| neb rest] eqn:E.
  - rewrite app_nil_r, <- E. now rewrite with_riftPool_same.
  - unfold stepBatch, survivors, casualties. cbn [filter map fst snd batchOpacity].
    destruct (batchOpacity neb - dt * 0.4 <=? 0) eqn:Eo; cbn [negb map app].
    + cbn [batchId remove]. rewrite Nat.eqb_refl. split; reflexivity.
    + rewrite app_nil_r. split; reflexivity.
Qed.

(** *** No object is dropped without being disposed *)

Lemma survivors_partition {A : Type} (key : A -> nat)
      (stepped : list (A * bool)) :
  Permutation (map (fun x => key (fst x)) stepped)
              (map key (survivors stepped) ++ casualties key stepped).
Proof.
  unfold survivors, casualties.
  induction stepped as [| [a b] l IH]; simpl; [constructor |].
  destruct b; simpl.
  - now constructor.
  - now apply Permutation_cons_app.
Qed.

Lemma stepped_ids {A : Type} (key : A -> nat) (step : A -> A * bool)
      (pool : list A) :
  (forall a, key (fst (step a)) = key a) ->
  map (fun x => key (fst x)) (map step pool) = map key pool.
Proof.
  intros Hid. rewrite map_map. apply map_ext. exact Hid.
Qed.

Lemma stepRing_id (ext : Externals) (dt : Q) (w : Ring) :
  ringId (fst (stepRing ext dt w)) = ringId w.
Proof. unfold stepRing. destruct (_ >? _); reflexivity. Qed.

Lemma stepRay_id (dt : Q) (r : Ray) : rayId (fst (stepRay dt r)) = rayId r.
Proof. unfold stepRay. destruct (_ <? _); reflexivity. Qed.

Lemma stepSpike_id (ext : Externals) (dt time : Q) (s : Spike) :
  spikeId (fst (stepSpike ext dt time s)) = spikeId s.
Proof. reflexivity. Qed.

(** [st1] holds the objects of [st] except some it has disposed. *)
Definition accounts (st st1 : State) : Prop :=
  exists dropped,
    disposed st1 = disposed st ++ dropped
    /\ Permutation (poolIds (effectGroups st))
                   (poolIds (effectGroups st1) ++ dropped).

Lemma accounts_refl (st : State) : accounts st st.
Proof. exists []. now rewrite !app_nil_r. Qed.

Lemma accounts_trans (a b c : State) :
  accounts a b -> accounts b c -> accounts a c.
Proof.
  intros (d1 & Hd1 & Hp1) (d2 & Hd2 & Hp2).
  exists (d1 ++ d2). split.
  - now rewrite Hd2, Hd1, app_assoc.
  - rewrite Hp1, Hp2, <- !app_assoc.
    apply Permutation_app_head, Permutation_app_comm.
Qed.

Lemma permutation_inside (a r s c b : list nat) :
  Permutation r (s ++ c) ->
  Permutation (a ++ r ++ b) ((a ++ s ++ b) ++ c).
Proof.
  intros Hp. rewrite <- !app_assoc. apply Permutation_app_head.
  rewrite Hp, <- app_assoc. apply Permutation_app_head, Permutation_app_comm.
Qed.

Lemma updateResonance_accounts (ext : Externals) (st : State) (dt : Q) :
  accounts st (updateResonance ext st dt).
Proof.
  destruct (updateResonance_pools ext st dt) as [Hp Hd].
  eexists. split; [exact Hd |]. rewrite Hp. unfold poolIds.
  cbn [resonancePool prismPool riftPool spikesPool with_resonancePool].
  apply (permutation_inside []).
  rewrite <- (stepped_ids ringId (stepRing ext dt)) by apply stepRing_id.
  apply survivors_partition.
Qed.

Lemma updatePrism_accounts (st : State) (dt : Q) :
  accounts st (updatePrism st dt).
Proof.
  destruct (updatePrism_pools st dt) as [Hp Hd].
  eexists. split; [exact Hd |]. rewrite Hp. unfold poolIds.
  cbn [resonancePool prismPool riftPool spikesPool with_prismPool].
  apply permutation_inside.
  rewrite <- (stepped_ids rayId (stepRay dt)) by apply stepRay_id.
  apply survivors_partition.
Qed.

Lemma updateRift_accounts (ext : Externals) (st : State) (dt : Q) :
  accounts st (updateRift ext st dt).
Proof.
  destruct (updateRift_pools ext st dt) as [Hp Hd].
  eexists. split; [exact Hd |]. rewrite Hp. unfold poolIds.
  cbn [resonancePool prismPool riftPool spikesPool with_riftPool].
  rewrite !(app_assoc (map ringId _)).
  apply permutation_inside.
  destruct (riftPool (effectGroups st)) as [| neb rest]; [constructor |].
  rewrite map_app.
  change (map batchId (neb :: rest))
    with (map (fun x => batchId (fst x)) [stepBatch ext dt neb]
          ++ map batchId rest).
  rewrite (survivors_partition batchId [stepBatch ext dt neb]).
  rewrite <- !app_assoc.
  apply Permutation_app_head, Permutation_app_comm.
Qed.

Lemma updateSpikes_accounts (ext : Externals) (st : State) (dt time : Q) :
  accounts st (updateSpikes ext st dt time).
Proof.
  destruct (updateSpikes_pools ext st dt time) as [Hp Hd].
  eexists. split; [exact Hd |]. rewrite Hp. unfold poolIds.
  cbn [resonancePool prismPool riftPool spikesPool with_spikesPool].
  rewrite !(app_assoc (map ringId _)), !(app_assoc (_ ++ map rayId _)).
  rewrite <- (app_nil_r (map spikeId (spikesPool (effectGroups st)))).
  rewrite <- (app_nil_r (map spikeId (survivors _))).
  apply permutation_inside.
  rewrite <- (stepped_ids spikeId (stepSpike ext dt time))
    by apply stepSpike_id.
  apply survivors_partition.
Qed.

(** X9.  An animation tick leaks nothing: the objects pooled before
    [update] are exactly those still pooled after it together with those
    it disposed of during the tick, each once. *)
Theorem update_disposes_what_it_drops
        (ext : Externals) (st : State) (dt time : Q) :
  exists dropped,
    disposed (update ext st dt time) = disposed st ++ dropped
    /\ Permutation (poolIds (effectGroups st))
                   (poolIds (effectGroups (update ext st dt time)) ++ dropped).
Proof.
  change (accounts st (update ext st dt time)).
  unfold update. destruct (negb (group st)); [apply accounts_refl |].
  eapply accounts_trans; [apply updateResonance_accounts |].
  eapply accounts_trans; [apply updatePrism_accounts |].
  eapply accounts_trans; [apply updateRift_accounts |].
  apply updateSpikes_accounts.
Qed.

(** *** Lifetimes *)

Lemma In_survivors {A : Type} (step : A -> A * bool) (pool : list A) (a1 : A) :
  In a1 (survivors (map step pool)) ->
  exists a, In a pool /\ fst (step a) = a1 /\ snd (step a) = true.
Proof.
  unfold survivors. intros Hin.
  apply in_map_iff in Hin. destruct Hin as ([x b] & <- & Hf).
  apply filter_In in Hf. destruct Hf as [Hm Hb].
  apply in_map_iff in Hm. destruct Hm as (a & Ha & Hpool).
  exists a. rewrite Ha. simpl in *. auto.
Qed.

Lemma update_pools (ext : Externals) (st : State) (dt time : Q) :
  group st = true ->
  resonancePool (effectGroups (update ext st dt time))
  = survivors (map (stepRing ext dt) (resonancePool (effectGroups st)))
  /\ prismPool (effectGroups (update ext st dt time))
     = survivors (map (stepRay dt) (prismPool (effectGroups st)))
  /\ spikesPool (effectGroups (update ext st dt time))
     = survivors (map (stepSpike ext dt time)
                      (spikesPool (effectGroups st)))
  /\ riftPool (effectGroups (update ext st dt time))
     = match riftPool (effectGroups st) with
       | [] => []
       | neb :: rest => survivors [stepBatch ext dt neb] ++ rest
       end.
Proof.
  intros Hgroup. unfold update. rewrite Hgroup. cbn [negb].
  rewrite (proj1 (updateSpikes_pools _ _ _ _)).
  rewrite (proj1 (updateRift_pools _ _ _)).
  rewrite (proj1 (updatePrism_pools _ _)).
  rewrite (proj1 (updateResonance_pools _ _ _)).
  destruct (effectGroups st) as [p1 p2 p3 p4]. repeat split.
Qed.

(** X10.  Remaining life never grows: for a time step that is not
    negative, one tick leaves the life of a ring, a ray, a rift particle
    and a spike at most what it was. *)
Theorem life_never_grows (ext : Externals) (dt time : Q) :
  0 <= dt ->
  (forall w, ringLife (fst (stepRing ext dt w)) <= ringLife w)
  /\ (forall r, rayLife (fst (stepRay dt r)) <= rayLife r)
  /\ (forall pd, life (stepParticle ext dt pd) <= life pd)
  /\ (forall s, spikeLife (fst (stepSpike ext dt time s)) <= spikeLife s).
Proof.
  intros Hdt. repeat split.
  - intros w. unfold stepRing. destruct (ringDelay w >? 0); simpl; lra.
  - intros r. unfold stepRay. destruct (_ <? _); simpl; lra.
  - intros pd. unfold stepParticle. destruct (life pd - dt >? 0); simpl; lra.
  - intros s. simpl. lra.
Qed.

Lemma life_never_grows_witness :
  (forall w, ringLife (fst (stepRing sampleExternals (1 / 60) w))
             <= ringLife w)
  /\ (forall r, rayLife (fst (stepRay (1 / 60) r)) <= rayLife r)
  /\ (forall pd, life (stepParticle sampleExternals (1 / 60) pd) <= life pd)
  /\ (forall s, spikeLife (fst (stepSpike sampleExternals (1 / 60) 2 s))
                <= spikeLife s).
Proof.
  apply (life_never_grows sampleExternals (1 / 60) 2).
  unfold Qle. simpl. lia.
Defined.

(** X11.  After an animation tick no expired ray or spike is left in its
    pool, and no expired ring either if there was none before (a ring
    still delayed is not aged, so it is not examined). *)
Theorem update_leaves_no_expired
        (ext : Externals) (st : State) (dt time : Q) :
  group st = true ->
  (forall r, In r (prismPool (effectGroups (update ext st dt time))) ->
             0 < rayLife r)
  /\ (forall s, In s (spikesPool (effectGroups (update ext st dt time))) ->
                0 < spikeLife s)
  /\ ((forall w, In w (resonancePool (effectGroups st)) -> 0 < ringLife w) ->
      forall w, In w (resonancePool (effectGroups (update ext st dt time))) ->
                0 < ringLife w).
Proof.
  intros Hgroup.
  destruct (update_pools ext st dt time Hgroup) as (Hr & Hp & Hs & _).
  rewrite Hr, Hp, Hs. repeat split.
  - intros r Hin. apply In_survivors in Hin.
    destruct Hin as (r0 & _ & <- & Hlive). revert Hlive.
    unfold stepRay. destruct (_ <? _); simpl; apply gtb_true_iff.
  - intros s Hin. apply In_survivors in Hin.
    destruct Hin as (s0 & _ & <- & Hlive). revert Hlive.
    simpl. apply gtb_true_iff.
  - intros Hbefore w Hin. apply In_survivors in Hin.
    destruct Hin as (w0 & Hw0 & <- & Hlive). revert Hlive.
    unfold stepRing. destruct (ringDelay w0 >? 0); simpl.
    + intros _. now apply Hbefore.
    + apply gtb_true_iff.
Qed.

(** A crystal showing prism rays that have faded in and are fading out. *)
Definition agedPrism : State :=
  Nat.iter 80 (fun st => update sampleExternals st (1 / 60) 0) showingPrism.

Example agedPrism_rays :
  List.length (prismPool (effectGroups agedPrism)) = 120%nat.
Proof. vm_compute. reflexivity. Qed.

Lemma update_leaves_no_expired_witness :
  Forall (fun r => 0 < rayLife r)
         (prismPool
            (effectGroups (update sampleExternals agedPrism (1 / 60) 0))).
Proof.
  apply Forall_forall.
  refine (proj1 (update_leaves_no_expired
                   sampleExternals agedPrism (1 / 60) 0 _)).
  apply update_keeps.
Defined.

(** X12.  A spike's opacity is always a valid one: after a tick it lies
    between 0 and 1, and a spike that stays in the pool is never more
    opaque than its remaining life. *)
Theorem spike_opacity_bounds (ext : Externals) (dt time : Q) (s : Spike) :
  0 <= spikeOpacity (fst (stepSpike ext dt time s))
  /\ spikeOpacity (fst (stepSpike ext dt time s)) <= 1
  /\ (snd (stepSpike ext dt time s) = true ->
      spikeOpacity (fst (stepSpike ext dt time s))
      <= spikeLife (fst (stepSpike ext dt time s))).
Proof.
  cbn [stepSpike fst snd spikeOpacity spikeLife].
  set (life1 := spikeLife s - dt * 0.8).
  set (ramp := Qmin 1 (spikeOpacity s + dt * 2)).
  split; [apply Q.le_max_l |]. split.
  - apply Q.max_lub; [lra | apply Q.le_min_l].
  - intros Hlive. apply gtb_true_iff in Hlive.
    apply Q.max_lub; [lra |].
    eapply Qle_trans; [apply Q.le_min_r | apply Q.le_min_r].
Qed.

(** *** Rift batches *)

(** X13.  Only the first rift batch of the pool is animated: a tick
    leaves every later batch exactly as it was (particles, opacity and
    place in the pool), whether the first batch stays or is removed. *)
Theorem updateRift_first_batch_only
        (ext : Externals) (st : State) (dt : Q) (neb : Batch)
        (rest : list Batch) :
  riftPool (effectGroups st) = neb :: rest ->
  riftPool (effectGroups (updateRift ext st dt)) = rest
  \/ riftPool (effectGroups (updateRift ext st dt))
     = fst (stepBatch ext dt neb) :: rest.
Proof.
  intros Hpool. rewrite (proj1 (updateRift_pools ext st dt)), Hpool.
  cbn [riftPool with_riftPool]. unfold survivors, stepBatch.
  cbn [filter snd]. destruct (negb _); [right | left]; reflexivity.
Qed.

(** Two bursts in the pool, the second one a reinforcement. *)
Definition twoBursts : State :=
  emitRift sampleExternals (emitRift sampleExternals (init new) 3) 2.

Lemma updateRift_first_batch_only_witness :
  riftPool (effectGroups (updateRift sampleExternals twoBursts (1 / 60)))
  = [mkBatch 1 (map (fun i => newParticle sampleExternals (18 + 6 * i))
                    (seq 0 2)) 1]
  \/ riftPool (effectGroups (updateRift sampleExternals twoBursts (1 / 60)))
     = fst (stepBatch sampleExternals (1 / 60)
              (mkBatch 0 (map (fun i => newParticle sampleExternals (0 + 6 * i))
                              (seq 0 3)) 1))
       :: [mkBatch 1 (map (fun i => newParticle sampleExternals (18 + 6 * i))
                          (seq 0 2)) 1].
Proof.
  apply (updateRift_first_batch_only sampleExternals twoBursts (1 / 60)).
  reflexivity.
Defined.

(** *** Delayed rings *)

(** [n] ticks of [updateResonance]. *)
Definition resonanceTicks (ext : Externals) (dt : Q) (n : nat) (st : State)
  : State :=
  Nat.iter n (fun s => updateResonance ext s dt) st.

Lemma inject_succ (n : nat) :
  inject_Z (Z.of_nat (S n)) == inject_Z (Z.of_nat n) + 1.
Proof.
  rewrite Nat2Z.inj_succ. unfold Z.succ. rewrite inject_Z_plus. reflexivity.
Qed.

Lemma survivors_In {A : Type} (step : A -> A * bool) (pool : list A) (a : A) :
  In a pool -> snd (step a) = true ->
  In (fst (step a)) (survivors (map step pool)).
Proof.
  intros Hin Hlive. unfold survivors.
  apply in_map_iff. exists (step a). split; [reflexivity |].
  apply filter_In. split; [now apply in_map | exact Hlive].
Qed.

(** X15.  A ring waits out its delay untouched: as long as the time
    elapsed before each tick is below its delay, the ring stays in the
    pool with the life, scale and opacity it had, and only its delay is
    counted down by [dt] per tick. *)
Theorem delayed_ring_waits
        (ext : Externals) (dt : Q) (n : nat) (st : State) (w : Ring) :
  In w (resonancePool (effectGroups st)) ->
  (forall k, (k < n)%nat -> inject_Z (Z.of_nat k) * dt < ringDelay w) ->
  exists w1,
    In w1 (resonancePool (effectGroups (resonanceTicks ext dt n st)))
    /\ ringId w1 = ringId w
    /\ ringLife w1 = ringLife w
    /\ ringScale w1 = ringScale w
    /\ ringOpacity w1 = ringOpacity w
    /\ ringDelay w1 == ringDelay w - inject_Z (Z.of_nat n) * dt.
Proof.
  intros Hin. induction n as [| n IH]; intros Hwait.
  - exists w. split; [exact Hin |]. repeat split. simpl. ring.
  - destruct IH as (w1 & Hin1 & Hid & Hlife & Hscale & Hop & Hdelay).
    { intros k Hk. apply Hwait. lia. }
    assert (Hpos : 0 < ringDelay w1).
    { pose proof (Hwait n (Nat.lt_succ_diag_r n)). lra. }
    pose proof (stepRing_delayed ext dt w1 Hpos) as Hstep.
    exists (fst (stepRing ext dt w1)). split.
    + unfold resonanceTicks in *. cbn [Nat.iter nat_rect].
      rewrite (proj1 (updateResonance_pools ext _ dt)).
      cbn [resonancePool with_resonancePool].
      apply survivors_In; [exact Hin1 | now rewrite Hstep].
    + rewrite Hstep. cbn [fst ringId ringLife ringScale ringOpacity ringDelay].
      repeat (split; [assumption |]).
      rewrite Hdelay, inject_succ. ring.
Qed.

(** The third ring of a fresh batch (delay 0.12 s) over 8 ticks of
    1/60 s. *)
Lemma delayed_ring_waits_witness :
  exists w1,
    In w1 (resonancePool
             (effectGroups
                (resonanceTicks sampleExternals (1 / 60) 8
                                (emitResonance (init new) 3))))
    /\ ringId w1 = 2%nat
    /\ ringLife w1 = 1
    /\ ringScale w1 = 0.1
    /\ ringOpacity w1 = 1
    /\ ringDelay w1 == 2 * 0.06 - inject_Z (Z.of_nat 8) * (1 / 60).
Proof.
  apply (delayed_ring_waits sampleExternals (1 / 60) 8
                            (emitResonance (init new) 3)
                            (mkRing 2 1 (2 * 0.06) 0.1 1)).
  - right. right. left. reflexivity.
  - intros k Hk.
    do 8 (destruct k as [| k]; [reflexivity |]). lia.
Defined.

(** *** Requests for an effect *)

Lemma triggerEffect_any (ext : Externals) (st : State) (kind : EffectState) :
  group st = true -> kind <> idle ->
  isAnyEffectActive (triggerEffect ext st kind) = true.
Proof.
  intros Hgroup Hkind.
  pose proof (proj2 (triggerEffect_pools ext st kind Hgroup Hkind)) as Hsize.
  unfold isAnyEffectActive.
  destruct kind; try contradiction; cbn [poolSize batchSize] in Hsize;
    rewrite Hsize; cbn [Nat.ltb Nat.leb orb];
    rewrite ?orb_true_r; reflexivity.
Qed.

(** X16.  Asking again for the effect that is showing changes nothing:
    the second of two equal requests neither clears nor emits. *)
Theorem setExclusiveEffect_idempotent
        (ext : Externals) (st : State) (kind : EffectState) :
  group st = true -> kind <> idle ->
  setExclusiveEffect ext (setExclusiveEffect ext st kind) kind
  = setExclusiveEffect ext st kind.
Proof.
  intros Hgroup Hkind.
  assert (Hsame : forall s,
             EffectState_eqb (activeEffect s) kind && isAnyEffectActive s = true ->
             setExclusiveEffect ext s kind = s).
  { intros s E. unfold setExclusiveEffect. rewrite E.
    destruct kind; try reflexivity. contradiction. }
  destruct (EffectState_eqb (activeEffect st) kind && isAnyEffectActive st)
    eqn:E.
  - now rewrite !(Hsame st E).
  - assert (Hfirst : setExclusiveEffect ext st kind = triggerEffect ext st kind).
    { unfold setExclusiveEffect. rewrite E.
      destruct kind; try reflexivity. contradiction. }
    rewrite Hfirst. apply Hsame.
    rewrite (proj1 (triggerEffect_state ext st kind Hgroup Hkind)).
    rewrite (triggerEffect_any ext st kind Hgroup Hkind).
    rewrite andb_true_r. now apply EffectState_eqb_eq.
Qed.

Lemma setExclusiveEffect_idempotent_witness :
  setExclusiveEffect sampleExternals
    (setExclusiveEffect sampleExternals showingPrism resonance) resonance
  = setExclusiveEffect sampleExternals showingPrism resonance.
Proof.
  apply (setExclusiveEffect_idempotent sampleExternals showingPrism resonance).
  - reflexivity.
  - discriminate.
Defined.

(** The kind that follows [kind] in the order of [triggerNextEffect]. *)
Definition successor (kind : EffectState) : EffectState :=
  match kind with
  | idle => resonance
  | resonance => prism
  | prism => rift
  | rift => spikes
  | spikes => resonance
  end.

Lemma triggerNextEffect_successor (ext : Externals) (st : State) :
  group st = true ->
  activeEffect (triggerNextEffect ext st) = successor (activeEffect st)
  /\ group (triggerNextEffect ext st) = true.
Proof.
  intros Hgroup.
  assert (E : triggerNextEffect ext st
              = triggerEffect ext st (successor (activeEffect st))).
  { unfold triggerNextEffect. destruct (activeEffect st); reflexivity. }
  rewrite E.
  destruct (triggerEffect_state ext st (successor (activeEffect st)) Hgroup)
    as (Ha & Hg & _).
  - destruct (activeEffect st); discriminate.
  - split; assumption.
Qed.

(** X17.  [triggerNextEffect] walks the cycle resonance, prism, rift,
    spikes: from idle it starts with resonance, it never lands on idle,
    and four calls in a row come back to the effect they started from. *)
Theorem triggerNextEffect_cycle (ext : Externals) (st : State) :
  group st = true ->
  activeEffect (triggerNextEffect ext st) = successor (activeEffect st)
  /\ activeEffect (triggerNextEffect ext st) <> idle
  /\ (activeEffect st <> idle ->
      activeEffect (Nat.iter 4 (triggerNextEffect ext) st) = activeEffect st).
Proof.
  intros Hgroup.
  destruct (triggerNextEffect_successor ext st Hgroup) as [H1 G1].
  split; [exact H1 |]. split.
  - rewrite H1. destruct (activeEffect st); discriminate.
  - intros Hactive.
    change (Nat.iter 4 (triggerNextEffect ext) st)
      with (triggerNextEffect ext
              (triggerNextEffect ext
                 (triggerNextEffect ext (triggerNextEffect ext st)))).
    destruct (triggerNextEffect_successor ext _ G1) as [H2 G2].
    destruct (triggerNextEffect_successor ext _ G2) as [H3 G3].
    destruct (triggerNextEffect_successor ext _ G3) as [H4 _].
    rewrite H4, H3, H2, H1.
    destruct (activeEffect st); try reflexivity. contradiction.
Qed.

Lemma triggerNextEffect_cycle_witness :
  activeEffect (triggerNextEffect sampleExternals showingPrism) = rift.
Proof.
  refine (proj1 (triggerNextEffect_cycle sampleExternals showingPrism _)).
  reflexivity.
Defined.

(** *** Reinforcement with spikes *)

(** X18.  [triggerSpikesFromAudio] only adds spikes, never more than 60
    in one call and at least 12 when no band is negative; the other
    pools, the active effect, the bloom and the disposal log stay as
    they were. *)
Theorem triggerSpikesFromAudio_adds
        (ext : Externals) (st : State) (low mid high : Q) :
  exists count : nat,
    spikesPool (effectGroups (triggerSpikesFromAudio ext st low mid high))
    = spikesPool (effectGroups st)
      ++ map (fun i => newSpike ext (nextId st + i) (randomCalls st + 3 * i)
                                high)
             (seq 0 count)
    /\ (count <= 60)%nat
    /\ (0 <= low -> 0 <= mid -> 0 <= high -> (12 <= count)%nat)
    /\ resonancePool (effectGroups (triggerSpikesFromAudio ext st low mid high))
       = resonancePool (effectGroups st)
    /\ prismPool (effectGroups (triggerSpikesFromAudio ext st low mid high))
       = prismPool (effectGroups st)
    /\ riftPool (effectGroups (triggerSpikesFromAudio ext st low mid high))
       = riftPool (effectGroups st)
    /\ activeEffect (triggerSpikesFromAudio ext st low mid high)
       = activeEffect st
    /\ bloomStrength (triggerSpikesFromAudio ext st low mid high)
       = bloomStrength st
    /\ disposed (triggerSpikesFromAudio ext st low mid high) = disposed st.
Proof.
  unfold triggerSpikesFromAudio. rewrite createSpikes_spec.
  set (x := low * 0.5 + mid * 0.8 + high * 1.0).
  eexists. split; [reflexivity |].
  split; [| split; [| repeat split]].
  - assert (H : 12 + Qmin 1 x * 48 <= inject_Z 60).
    { pose proof (Q.le_min_l 1 x). change (inject_Z 60) with 60. lra. }
    apply Qfloor_resp_le in H. rewrite Qfloor_Z in H. lia.
  - intros Hlow Hmid Hhigh.
    assert (H : inject_Z 12 <= 12 + Qmin 1 x * 48).
    { assert (0 <= Qmin 1 x) by (apply Q.min_glb; unfold x; lra).
      change (inject_Z 12) with 12. lra. }
    apply Qfloor_resp_le in H. rewrite Qfloor_Z in H. lia.
Qed.

(** *** Themes *)

(** X19.  The theme is applied only when the index changes: a call that
    leaves [themeIndex] as it was changes nothing at all, a call that
    changes it applies the new theme once, and repeating a call with
    the same arguments is a no-op. *)
Theorem setTheme_applies_on_change
        (st : State) (energy : Q)
        (instrument : InstrumentClassifier.Instrument) :
  let st1 := setThemeByEnergyInstrument st energy instrument in
  (themeIndex st1 = themeIndex st -> st1 = st)
  /\ (themeIndex st1 <> themeIndex st ->
      appliedThemes st1 = appliedThemes st ++ [themeIndex st1])
  /\ setThemeByEnergyInstrument st1 energy instrument = st1.
Proof.
  unfold setThemeByEnergyInstrument.
  match goal with
  | |- context [negb (?i =? themeIndex st)%nat] => set (idx := i)
  end.
  destruct (idx =? themeIndex st)%nat eqn:E; cbn [negb].
  - rewrite E. cbn [negb]. repeat split. intros H. now contradiction H.
  - cbn [applyTheme with_themeIndex with_appliedThemes themeIndex appliedThemes].
    rewrite Nat.eqb_refl. cbn [negb]. repeat split.
    intros H. apply Nat.eqb_neq in E. contradiction.
Qed.

(** *** What is emitted *)

(** [Math.random()] answers in [0, 1). *)
Definition unitRandom (ext : Externals) : Prop :=
  forall k, 0 <= Math_random ext k /\ Math_random ext k < 1.

Lemma newParticle_ranges (ext : Externals) (r : nat) :
  unitRandom ext ->
  1.2 <= life (newParticle ext r) /\ life (newParticle ext r) < 2.4
  /\ -0.02 <= rotationSpeed (newParticle ext r)
  /\ rotationSpeed (newParticle ext r) < 0.02
  /\ position (newParticle ext r) = mkVector3 0 0 0.
Proof.
  intros Hrand. unfold newParticle. cbn [life rotationSpeed position].
  pose proof (Hrand (r + 0)%nat). pose proof (Hrand (r + 5)%nat).
  repeat split; lra.
Qed.

(** X24.  A rift burst is one batch at opacity 1 with [count] particles,
    added behind the batches already there; each particle starts at the
    centre with a life of 1.2 s up to (not including) 2.4 s and a
    rotation speed within 0.02 of zero. *)
Theorem emitRift_particle_ranges
        (ext : Externals) (st : State) (count : nat) :
  unitRandom ext ->
  exists neb,
    riftPool (effectGroups (emitRift ext st count))
    = riftPool (effectGroups st) ++ [neb]
    /\ batchOpacity neb = 1
    /\ List.length (particles neb) = count
    /\ Forall (fun pd =>
                 1.2 <= life pd /\ life pd < 2.4
                 /\ -0.02 <= rotationSpeed pd /\ rotationSpeed pd < 0.02
                 /\ position pd = mkVector3 0 0 0)
              (particles neb).
Proof.
  intros Hrand. rewrite emitRift_spec.
  eexists. split; [reflexivity |]. cbn [batchOpacity particles].
  split; [reflexivity |].
  split; [now rewrite length_map, length_seq |].
  apply Forall_forall. intros pd Hin.
  apply in_map_iff in Hin. destruct Hin as (i & <- & _).
  now apply newParticle_ranges.
Qed.

Lemma sampleExternals_unitRandom : unitRandom sampleExternals.
Proof. intros k. simpl. lra. Qed.

Lemma emitRift_particle_ranges_witness :
  exists neb,
    riftPool (effectGroups (emitRift sampleExternals twoBursts 4))
    = riftPool (effectGroups twoBursts) ++ [neb]
    /\ batchOpacity neb = 1
    /\ List.length (particles neb) = 4%nat
    /\ Forall (fun pd =>
                 1.2 <= life pd /\ life pd < 2.4
                 /\ -0.02 <= rotationSpeed pd /\ rotationSpeed pd < 0.02
                 /\ position pd = mkVector3 0 0 0)
              (particles neb).
Proof.
  apply (emitRift_particle_ranges sampleExternals twoBursts 4).
  intros k. simpl. lra.
Defined.

Lemma newSpike_ranges (ext : Externals) (id r : nat) (high : Q) :
  unitRandom ext ->
  spikeLife (newSpike ext id r high) == 1
  /\ spikeOpacity (newSpike ext id r high) == 0
  /\ 0.35 <= speed (newSpike ext id r high)
  /\ speed (newSpike ext id r high) < 1.35
  /\ 0 <= seed (newSpike ext id r high)
  /\ seed (newSpike ext id r high) < 1
  /\ 0.6 + high * 0.8 <= baseLen (newSpike ext id r high)
  /\ baseLen (newSpike ext id r high) < 1.7 + high * 0.8.
Proof.
  intros Hrand. unfold newSpike.
  cbn [spikeLife spikeOpacity speed seed baseLen].
  pose proof (Hrand r). pose proof (Hrand (r + 1)%nat).
  pose proof (Hrand (r + 2)%nat).
  repeat split; lra.
Qed.

(** X25.  [createSpikes] leaves the spikes already pooled as they are,
    and each spike it adds starts invisible (opacity 0) with life 1, a
    speed from 0.35 up to 1.35, a seed in [0, 1) and a base length from
    0.6 + 0.8 high up to 1.7 + 0.8 high; [low] and [mid] reach none of
    these. *)
Theorem createSpikes_spike_ranges
        (ext : Externals) (st : State) (count : nat) (low mid high : Q) :
  unitRandom ext ->
  exists added,
    spikesPool (effectGroups (createSpikes ext st count low mid high))
    = spikesPool (effectGroups st) ++ added
    /\ List.length added = count
    /\ Forall (fun s =>
                 spikeLife s == 1 /\ spikeOpacity s == 0
                 /\ 0.35 <= speed s /\ speed s < 1.35
                 /\ 0 <= seed s /\ seed s < 1
                 /\ 0.6 + high * 0.8 <= baseLen s
                 /\ baseLen s < 1.7 + high * 0.8)
              added.
Proof.
  intros Hrand. rewrite createSpikes_spec.
  eexists. split; [reflexivity |].
  split; [now rewrite length_map, length_seq |].
  apply Forall_forall. intros sp Hin.
  apply in_map_iff in Hin. destruct Hin as (i & <- & _).
  now apply newSpike_ranges.
Qed.

Lemma createSpikes_spike_ranges_witness :
  exists added,
    spikesPool (effectGroups (createSpikes sampleExternals (init new) 5
                                           0.1 0.2 0.9))
    = spikesPool (effectGroups (init new)) ++ added
    /\ List.length added = 5%nat
    /\ Forall (fun s =>
                 spikeLife s == 1 /\ spikeOpacity s == 0
                 /\ 0.35 <= speed s /\ speed s < 1.35
                 /\ 0 <= seed s /\ seed s < 1
                 /\ 0.6 + 0.9 * 0.8 <= baseLen s
                 /\ baseLen s < 1.7 + 0.9 * 0.8)
              added.
Proof.
  apply (createSpikes_spike_ranges sampleExternals (init new) 5 0.1 0.2 0.9).
  intros k. simpl. lra.
Defined.

(** *** One effect at a time *)

(** Only the pool of the active effect may hold objects. *)
Definition exclusive (c : State) : Prop :=
  group c = true
  /\ forall other, other <> activeEffect c ->
                   poolSize (effectGroups c) other = 0%nat.

Lemma exclusive_step (c c1 : State) :
  group c1 = group c -> activeEffect c1 = activeEffect c ->
  (forall kind, kind <> activeEffect c ->
                poolSize (effectGroups c) kind = 0%nat ->
                poolSize (effectGroups c1) kind = 0%nat) ->
  exclusive c -> exclusive c1.
Proof.
  intros Hg Ha Hp [G E]. split; [congruence |].
  intros other Ho. rewrite Ha in Ho. apply Hp; auto.
Qed.

Lemma setTheme_pools (c : State) (energy : Q)
      (instrument : InstrumentClassifier.Instrument) :
  effectGroups (setThemeByEnergyInstrument c energy instrument)
  = effectGroups c.
Proof.
  unfold setThemeByEnergyInstrument. destruct (negb _); reflexivity.
Qed.

Lemma exclusive_setTheme (c : State) (energy : Q)
      (instrument : InstrumentClassifier.Instrument) :
  exclusive c -> exclusive (setThemeByEnergyInstrument c energy instrument).
Proof.
  destruct (setTheme_keeps energy instrument c) as [Ha Hg].
  apply exclusive_step; [exact Hg | exact Ha |].
  intros kind _. now rewrite setTheme_pools.
Qed.

Lemma exclusive_triggerEffect (ext : Externals) (c : State)
      (kind : EffectState) :
  group c = true -> kind <> idle -> exclusive (triggerEffect ext c kind).
Proof.
  intros Hg Hk.
  destruct (triggerEffect_state ext c kind Hg Hk) as (Ha & G & _).
  split; [exact G |]. rewrite Ha.
  apply (triggerEffect_pools ext c kind Hg Hk).
Qed.

Lemma exclusive_setExclusiveEffect (ext : Externals) (c : State)
      (kind : EffectState) :
  kind <> idle -> exclusive c -> exclusive (setExclusiveEffect ext c kind).
Proof.
  intros Hk Hc. unfold setExclusiveEffect.
  destruct kind; try contradiction;
    (destruct (_ && _); [exact Hc |]);
    (apply exclusive_triggerEffect; [apply Hc | discriminate]).
Qed.

Ltac other_pools Hact :=
  intros kind Hk; rewrite Hact in Hk;
  destruct kind; cbn [poolSize effectGroups resonancePool prismPool riftPool
                      spikesPool with_resonancePool with_prismPool
                      with_riftPool with_spikesPool];
  try (intros H; exact H); try reflexivity; contradiction.

Lemma exclusive_emitResonance (c : State) (rings : nat) :
  activeEffect c = resonance -> exclusive c ->
  exclusive (emitResonance c rings).
Proof.
  intros Hact. destruct (emitResonance_keeps rings c) as [Ha Hg].
  apply exclusive_step; [exact Hg | exact Ha |].
  rewrite emitResonance_spec. other_pools Hact.
Qed.

Lemma exclusive_emitPrism (c : State) (rays : nat) :
  activeEffect c = prism -> exclusive c -> exclusive (emitPrism c rays).
Proof.
  intros Hact. destruct (emitPrism_keeps rays c) as [Ha Hg].
  apply exclusive_step; [exact Hg | exact Ha |].
  rewrite emitPrism_spec. other_pools Hact.
Qed.

Lemma exclusive_emitRift (ext : Externals) (c : State) (count : nat) :
  activeEffect c = rift -> exclusive c -> exclusive (emitRift ext c count).
Proof.
  intros Hact. destruct (emitRift_keeps ext count c) as [Ha Hg].
  apply exclusive_step; [exact Hg | exact Ha |].
  rewrite emitRift_spec. other_pools Hact.
Qed.

Lemma exclusive_triggerSpikes (ext : Externals) (c : State) (low mid high : Q) :
  activeEffect c = spikes -> exclusive c ->
  exclusive (triggerSpikesFromAudio ext c low mid high).
Proof.
  intros Hact. destruct (triggerSpikesFromAudio_keeps ext low mid high c)
    as [Ha Hg].
  apply exclusive_step; [exact Hg | exact Ha |].
  unfold triggerSpikesFromAudio. rewrite createSpikes_spec.
  other_pools Hact.
Qed.

Lemma exclusive_update (ext : Externals) (c : State) (dt time : Q) :
  exclusive c -> exclusive (update ext c dt time).
Proof.
  intros Hc. destruct (update_keeps ext dt time c) as [Ha Hg].
  apply (exclusive_step c); [exact Hg | exact Ha | | exact Hc].
  destruct (update_pools ext c dt time (proj1 Hc)) as (Hr & Hp & Hs & Hf).
  intros kind _ Hempty.
  destruct kind; cbn [poolSize] in *; [reflexivity | | | |];
    apply length_zero_iff_nil in Hempty.
  - now rewrite Hr, Hempty.
  - now rewrite Hp, Hempty.
  - now rewrite Hf, Hempty.
  - now rewrite Hs, Hempty.
Qed.

(** *** Bloom and theme index *)

(** The bloom strengths the crystal asks for. *)
Definition bloomLevels : list Q := [1.2; 1.3; 1.35; 1.4; 1.6].

(** The theme index is kept, and the bloom is kept or set to a level. *)
Definition sameLook (c c1 : State) : Prop :=
  themeIndex c1 = themeIndex c
  /\ (bloomStrength c1 = bloomStrength c \/ In (bloomStrength c1) bloomLevels).

Lemma sameLook_refl (c : State) : sameLook c c.
Proof. split; [reflexivity | left; reflexivity]. Qed.

Lemma sameLook_trans (a b c : State) :
  sameLook a b -> sameLook b c -> sameLook a c.
Proof.
  intros [T1 B1] [T2 B2]. split; [congruence |].
  destruct B2 as [B2 | B2]; [| right; exact B2].
  rewrite B2. exact B1.
Qed.

Lemma updateResonance_look (ext : Externals) (c : State) (dt : Q) :
  sameLook c (updateResonance ext c dt).
Proof.
  unfold updateResonance.
  destruct (resonancePool (effectGroups c)); [apply sameLook_refl |].
  destruct (survivors _); split; try reflexivity;
    [right; left; reflexivity | left; reflexivity].
Qed.

Lemma updatePrism_look (c : State) (dt : Q) : sameLook c (updatePrism c dt).
Proof.
  unfold updatePrism.
  destruct (prismPool (effectGroups c)); [apply sameLook_refl |].
  destruct (survivors _); split; try reflexivity;
    [right; left; reflexivity | left; reflexivity].
Qed.

Lemma updateRift_look (ext : Externals) (c : State) (dt : Q) :
  sameLook c (updateRift ext c dt).
Proof.
  unfold updateRift.
  destruct (riftPool (effectGroups c)); [apply sameLook_refl |].
  destruct (_ <=? 0); split; try reflexivity;
    [right; left; reflexivity | left; reflexivity].
Qed.

Lemma updateSpikes_look (ext : Externals) (c : State) (dt time : Q) :
  sameLook c (updateSpikes ext c dt time).
Proof.
  unfold updateSpikes.
  destruct (spikesPool (effectGroups c)); [apply sameLook_refl |].
  destruct (survivors _); destruct (activeEffect c); split; try reflexivity;
    first [left; reflexivity | right; left; reflexivity].
Qed.

Lemma update_look (ext : Externals) (c : State) (dt time : Q) :
  sameLook c (update ext c dt time).
Proof.
  unfold update. destruct (negb (group c)); [apply sameLook_refl |].
  eapply sameLook_trans; [apply updateResonance_look |].
  eapply sameLook_trans; [apply updatePrism_look |].
  eapply sameLook_trans; [apply updateRift_look |].
  apply updateSpikes_look.
Qed.

Lemma triggerEffect_look (ext : Externals) (c : State) (kind : EffectState) :
  sameLook c (triggerEffect ext c kind).
Proof.
  destruct (group c) eqn:Hgroup.
  - destruct kind.
    + unfold triggerEffect. rewrite Hgroup. cbn [negb].
      rewrite clearAllEffects_spec. split; [reflexivity | left; reflexivity].
    + triggered Hgroup. split; [reflexivity |]. right. simpl. tauto.
    + triggered Hgroup. split; [reflexivity |]. right. simpl. tauto.
    + triggered Hgroup. split; [reflexivity |]. right. simpl. tauto.
    + triggered Hgroup. split; [reflexivity |]. right. simpl. tauto.
  - unfold triggerEffect. rewrite Hgroup. apply sameLook_refl.
Qed.

Lemma setExclusiveEffect_look (ext : Externals) (c : State)
      (kind : EffectState) :
  sameLook c (setExclusiveEffect ext c kind).
Proof.
  unfold setExclusiveEffect.
  destruct kind;
    [rewrite clearAllEffects_spec; split; [reflexivity | left; reflexivity] | | | |];
    (destruct (_ && _); [apply sameLook_refl | apply triggerEffect_look]).
Qed.

Lemma emitResonance_look (c : State) (rings : nat) :
  sameLook c (emitResonance c rings).
Proof.
  rewrite emitResonance_spec. split; [reflexivity | left; reflexivity].
Qed.

Lemma emitPrism_look (c : State) (rays : nat) : sameLook c (emitPrism c rays).
Proof.
  rewrite emitPrism_spec. split; [reflexivity | left; reflexivity].
Qed.

Lemma emitRift_look (ext : Externals) (c : State) (count : nat) :
  sameLook c (emitRift ext c count).
Proof. split; [reflexivity | left; reflexivity]. Qed.

Lemma triggerSpikes_look (ext : Externals) (c : State) (low mid high : Q) :
  sameLook c (triggerSpikesFromAudio ext c low mid high).
Proof.
  unfold triggerSpikesFromAudio. rewrite createSpikes_spec.
  split; [reflexivity | left; reflexivity].
Qed.

End CrystalSphereMore.

(** ** The scene over runs *)

Module SceneViewMore.
Import QNum QNumProps CrystalSphere CrystalSphereProps CrystalSphereMore.
Import SceneView SceneViewProps.
Open Scope Q_scope.

(** A property of the crystal of a scene, if it has one. *)
Definition crystalHas (P : CrystalSphere.State -> Prop) (s : SceneView.State)
  : Prop :=
  forall c, crystal s = Some c -> P c.

Lemma run_invariant (ext : Externals) (P : SceneView.State -> Prop) :
  (forall s e, P s -> P (step ext s e)) ->
  forall es s, P s -> Forall P (run ext s es).
Proof.
  intros Hstep es.
  induction es as [| e rest IH]; intros s Hs; simpl; constructor; auto.
Qed.

(** A scene step only reaches the crystal through the theme setter, the
    effect switch, the reinforcement and the animation tick. *)
Lemma step_crystal (ext : Externals) (P : CrystalSphere.State -> Prop) :
  (forall c energy instrument,
      P c -> P (setThemeByEnergyInstrument c energy instrument)) ->
  (forall c lastSwitch hold f,
      P c -> P (fst (switchEffect ext c lastSwitch hold f))) ->
  (forall c f, P c -> P (reinforce ext c f)) ->
  (forall c dt t, P c -> P (update ext c dt t)) ->
  forall s e, crystalHas P s -> crystalHas P (step ext s e).
Proof.
  intros Htheme Hswitch Hre Hup s e Hs c1.
  destruct e as [f | t]; simpl.
  - unfold updateFromAudio.
    destruct (crystal s) as [c |] eqn:Hc; [| simpl; discriminate].
    destruct (switchEffect _ _ _ _ _) as [c2 l2] eqn:Esw. simpl.
    intros [= <-]. apply Hre.
    change c2 with (fst (c2, l2)). rewrite <- Esw.
    apply Hswitch, Htheme, Hs. exact Hc.
  - unfold animate. destruct (is3D s); [| apply Hs].
    destruct (InstrumentClassifier.update _ _). simpl.
    destruct (crystal s) as [c |] eqn:Hc; simpl; [| discriminate].
    intros [= <-]. apply Hup, Hs. exact Hc.
Qed.

(** *** No mixing *)

Lemma exclusive_switchEffect
      (ext : Externals) (c : CrystalSphere.State) (lastSwitch hold : Q)
      (f : Frame) :
  exclusive c -> exclusive (fst (switchEffect ext c lastSwitch hold f)).
Proof.
  intros Hc. unfold switchEffect, applyChoice.
  destruct (chooseEffect _ _ _ _ _) as [kind |] eqn:E; [| exact Hc].
  destruct (negb _); [| exact Hc].
  destruct (_ >? _); [| exact Hc].
  simpl. apply exclusive_setExclusiveEffect; [| exact Hc].
  intros ->. apply (chooseEffect_not_idle _ _ _ _ _ E).
Qed.

Lemma exclusive_reinforce (ext : Externals) (c : CrystalSphere.State)
      (f : Frame) :
  exclusive c -> exclusive (reinforce ext c f).
Proof.
  intros Hc. unfold reinforce, getActiveEffect.
  match goal with
  | |- context [if ?b then triggerSpikesFromAudio ext c ?l ?m ?h else c] =>
      set (c1 := if b then triggerSpikesFromAudio ext c l m h else c)
  end.
  assert (H1 : exclusive c1).
  { subst c1.
    destruct (EffectState_eqb (activeEffect c) spikes) eqn:E; cbn [andb];
      [| exact Hc].
    destruct (beat f || _); [| exact Hc].
    apply exclusive_triggerSpikes; [now apply EffectState_eqb_eq | exact Hc]. }
  clearbody c1.
  destruct (activeEffect c1) eqn:E; try exact H1.
  - destruct (_ || _); [apply exclusive_emitResonance |]; assumption.
  - destruct (_ >? _); [apply exclusive_emitPrism |]; assumption.
  - destruct (_ >? _); [apply exclusive_emitRift |]; assumption.
Qed.

Lemma step_exclusive (ext : Externals) (s : SceneView.State) (e : Event) :
  crystalHas exclusive s -> crystalHas exclusive (step ext s e).
Proof.
  apply step_crystal.
  - intros c energy instrument. apply exclusive_setTheme.
  - intros c lastSwitch hold f. apply exclusive_switchEffect.
  - intros c f. apply exclusive_reinforce.
  - intros c dt t. apply exclusive_update.
Qed.

(** X20.  Effects are never mixed: from a scene whose crystal holds
    objects of the active effect only, every state reached by audio and
    animation frames has all pools empty except, at most, the one of
    the active effect.  While no effect is active, nothing is shown. *)
Theorem scene_never_mixes_effects
        (ext : Externals) (es : list Event) (s : SceneView.State) :
  (forall c, crystal s = Some c ->
             group c = true
             /\ forall other, other <> activeEffect c ->
                              poolSize (effectGroups c) other = 0%nat) ->
  Forall (fun s1 =>
            forall c, crystal s1 = Some c ->
                      forall other, other <> activeEffect c ->
                                    poolSize (effectGroups c) other = 0%nat)
         (run ext s es).
Proof.
  intros Hs.
  apply Forall_impl with (P := crystalHas exclusive).
  - intros s1 H1 c Hc. apply (H1 c Hc).
  - apply run_invariant; [apply step_exclusive | exact Hs].
Qed.

Lemma scene_never_mixes_effects_witness :
  Forall (fun s1 =>
            forall c, crystal s1 = Some c ->
                      forall other, other <> activeEffect c ->
                                    poolSize (effectGroups c) other = 0%nat)
         (run sampleExternals SceneView.new mids_then_highs).
Proof.
  apply (scene_never_mixes_effects sampleExternals mids_then_highs
                                   SceneView.new).
  intros c [= <-]. split; [reflexivity |].
  intros other _. destruct other; reflexivity.
Defined.

(** *** Bloom and theme stay in range *)

(** A valid theme index and one of the bloom levels. *)
Definition validLook (c : CrystalSphere.State) : Prop :=
  (themeIndex c < List.length themes)%nat
  /\ In (bloomStrength c) bloomLevels.

Lemma validLook_step (c c1 : CrystalSphere.State) :
  sameLook c c1 -> validLook c -> validLook c1.
Proof.
  intros [Ht Hb] [Vt Vb]. split; [now rewrite Ht |].
  destruct Hb as [Hb | Hb]; [now rewrite Hb | exact Hb].
Qed.

Lemma setTheme_index (c : CrystalSphere.State) (energy : Q)
      (instrument : InstrumentClassifier.Instrument) :
  themeIndex (setThemeByEnergyInstrument c energy instrument)
  = advance energy (baseIndex instrument)
  /\ bloomStrength (setThemeByEnergyInstrument c energy instrument)
     = bloomStrength c.
Proof.
  unfold setThemeByEnergyInstrument, advance.
  replace (match instrument with
           | InstrumentClassifier.none => 0%nat
           | InstrumentClassifier.drums => 2%nat
           | InstrumentClassifier.bass => 0%nat
           | InstrumentClassifier.guitar => 1%nat
           end) with (baseIndex instrument)
    by (destruct instrument; reflexivity).
  match goal with
  | |- context [negb (?i =? themeIndex c)%nat] => set (idx := i)
  end.
  destruct (Nat.eqb_spec idx (themeIndex c)) as [Heq | Hne]; cbn [negb].
  - split; [symmetry; exact Heq | reflexivity].
  - split; reflexivity.
Qed.

Lemma validLook_setTheme (c : CrystalSphere.State) (energy : Q)
      (instrument : InstrumentClassifier.Instrument) :
  validLook c -> validLook (setThemeByEnergyInstrument c energy instrument).
Proof.
  intros [_ Vb]. destruct (setTheme_index c energy instrument) as [Ht Hb].
  split; [| now rewrite Hb].
  rewrite Ht. apply advance_valid. destruct instrument; simpl; lia.
Qed.

Lemma switchEffect_look
      (ext : Externals) (c : CrystalSphere.State) (lastSwitch hold : Q)
      (f : Frame) :
  sameLook c (fst (switchEffect ext c lastSwitch hold f)).
Proof.
  unfold switchEffect, applyChoice.
  destruct (chooseEffect _ _ _ _ _) as [kind |]; [| apply sameLook_refl].
  destruct (negb _); [| apply sameLook_refl].
  destruct (_ >? _); [| apply sameLook_refl].
  simpl. apply setExclusiveEffect_look.
Qed.

Lemma reinforce_look (ext : Externals) (c : CrystalSphere.State) (f : Frame) :
  sameLook c (reinforce ext c f).
Proof.
  unfold reinforce, getActiveEffect.
  match goal with
  | |- context [if ?b then triggerSpikesFromAudio ext c ?l ?m ?h else c] =>
      set (c1 := if b then triggerSpikesFromAudio ext c l m h else c)
  end.
  assert (H1 : sameLook c c1).
  { subst c1.
    match goal with
    | |- context [if ?b then _ else _] => destruct b
    end; [apply triggerSpikes_look | apply sameLook_refl]. }
  clearbody c1. apply (sameLook_trans c c1); [exact H1 |].
  destruct (activeEffect c1); try apply sameLook_refl.
  - destruct (_ || _); [apply emitResonance_look | apply sameLook_refl].
  - destruct (_ >? _); [apply emitPrism_look | apply sameLook_refl].
  - destruct (_ >? _); [apply emitRift_look | apply sameLook_refl].
Qed.

Lemma step_validLook (ext : Externals) (s : SceneView.State) (e : Event) :
  crystalHas validLook s -> crystalHas validLook (step ext s e).
Proof.
  apply step_crystal.
  - intros c energy instrument. apply validLook_setTheme.
  - intros c lastSwitch hold f. apply validLook_step, switchEffect_look.
  - intros c f. apply validLook_step, reinforce_look.
  - intros c dt t. apply validLook_step, update_look.
Qed.

(** X21.  The look of the crystal stays in range over any run from a
    fresh scene: the theme index always names one of the four themes,
    and the bloom strength is always one of 1.2, 1.3, 1.35, 1.4 and
    1.6. *)
Theorem scene_theme_and_bloom_in_range (ext : Externals) (es : list Event) :
  Forall (fun s =>
            forall c, crystal s = Some c ->
                      (themeIndex c < List.length themes)%nat
                      /\ In (bloomStrength c) [1.2; 1.3; 1.35; 1.4; 1.6])
         (run ext SceneView.new es).
Proof.
  apply (run_invariant ext (crystalHas validLook)); [apply step_validLook |].
  intros c [= <-]. split; [simpl; lia | left; reflexivity].
Qed.

(** *** Quiet input *)

(** Every band and the RMS of the frame are at most 0.25. *)
Definition quiet (e : Event) : Prop :=
  match e with
  | Audio f => rms f <= 0.25 /\ low f <= 0.25 /\ mid f <= 0.25 /\ high f <= 0.25
  | Animate _ => True
  end.

Lemma quiet_chooses_nothing (low mid high rms : Q) (beat : bool) :
  rms <= 0.25 -> low <= 0.25 -> mid <= 0.25 -> high <= 0.25 ->
  chooseEffect low mid high rms beat = None.
Proof.
  intros Hr Hl Hm Hh. unfold chooseEffect.
  assert (E1 : (high >? 0.55) = false) by (apply gtb_false_iff; lra).
  assert (E2 : (high >? 0.6) = false) by (apply gtb_false_iff; lra).
  assert (E3 : (mid >? 0.55) = false) by (apply gtb_false_iff; lra).
  assert (E4 : (low >? 0.55) = false) by (apply gtb_false_iff; lra).
  assert (E5 : (low * 0.45 + mid * 0.35 + high * 0.2 + rms * 0.3 >? 0.5)
               = false) by (apply gtb_false_iff; lra).
  assert (E6 : (low * 0.45 + mid * 0.35 + high * 0.2 + rms * 0.3 >? 0.35)
               = false) by (apply gtb_false_iff; lra).
  rewrite E1, E2, E3, E4, E5, E6, andb_false_r. reflexivity.
Qed.

Lemma quiet_classifies_none (rms low mid high : Q) (beat : bool) :
  low <= 0.25 -> mid <= 0.25 -> high <= 0.25 ->
  InstrumentClassifier.classifyInstant rms low mid high beat
  = InstrumentClassifier.none.
Proof.
  intros Hl Hm Hh. unfold InstrumentClassifier.classifyInstant.
  assert (E1 : (high >? 0.5) = false) by (apply gtb_false_iff; lra).
  assert (E2 : (low >? 0.45) = false) by (apply gtb_false_iff; lra).
  assert (E3 : (mid >? 0.5) = false) by (apply gtb_false_iff; lra).
  rewrite E1, E2, E3, andb_false_r. cbn [andb].
  destruct (rms <? 0.08); reflexivity.
Qed.

(** A scene at rest: the crystal as created, no instrument recognised and
    quiet bands recorded. *)
Definition atRest (s : SceneView.State) : Prop :=
  crystal s = Some (init CrystalSphere.new)
  /\ currentInstrument s = InstrumentClassifier.none
  /\ InstrumentClassifier.current (instrumentClassifier s)
     = InstrumentClassifier.none
  /\ lastLow s <= 0.25 /\ lastMid s <= 0.25 /\ lastHigh s <= 0.25.

Lemma atRest_step (ext : Externals) (s : SceneView.State) (e : Event) :
  quiet e -> atRest s -> atRest (step ext s e).
Proof.
  intros He (Hc & Hi & Hk & Hl & Hm & Hh).
  destruct e as [f | t]; simpl in *.
  - destruct He as (Qr & Ql & Qm & Qh).
    unfold updateFromAudio. rewrite Hc, Hi.
    assert (Et : (Qmin 1 (low f * 0.5 + mid f * 0.3 + high f * 0.2
                          + rms f * 0.3) >? 0.35) = false).
    { apply gtb_false_iff.
      eapply Qle_trans; [apply Q.le_min_r | lra]. }
    assert (Etheme : setThemeByEnergyInstrument
                       (init CrystalSphere.new)
                       (Qmin 1 (low f * 0.5 + mid f * 0.3 + high f * 0.2
                                + rms f * 0.3))
                       InstrumentClassifier.none
                     = init CrystalSphere.new).
    { unfold setThemeByEnergyInstrument. rewrite Et. reflexivity. }
    rewrite Etheme. unfold switchEffect, applyChoice.
    rewrite (quiet_chooses_nothing _ _ _ _ (beat f) Qr Ql Qm Qh).
    unfold atRest. simpl. repeat split; assumption.
  - unfold animate. destruct (is3D s).
    + unfold InstrumentClassifier.update.
      cbn [InstrumentClassifier.rms InstrumentClassifier.low
           InstrumentClassifier.mid InstrumentClassifier.high
           InstrumentClassifier.beat].
      rewrite (quiet_classifies_none _ _ _ _ _ Hl Hm Hh), Hk.
      cbn [InstrumentClassifier.Instrument_eqb negb andb].
      unfold atRest. simpl. rewrite Hc. simpl.
      repeat split; assumption.
    + unfold atRest. repeat split; assumption.
Qed.

(** X22.  Quiet input shows nothing: while the RMS and the three bands
    of every audio frame are at most 0.25, a fresh scene never starts an
    effect, never changes the theme and never recognises an instrument,
    however many frames come and whatever their beat flags; its crystal
    stays exactly as it was created. *)
Theorem quiet_input_keeps_scene_at_rest
        (ext : Externals) (es : list Event) :
  Forall quiet es ->
  Forall (fun s =>
            crystal s = Some (init CrystalSphere.new)
            /\ activeKind s = Some idle
            /\ currentInstrument s = InstrumentClassifier.none)
         (run ext SceneView.new es).
Proof.
  intros Hq.
  assert (H : forall s, atRest s -> Forall atRest (run ext s es)).
  { induction Hq as [| e rest He Hrest IH]; intros s Hs; simpl;
      constructor.
    - now apply atRest_step.
    - apply IH. now apply atRest_step. }
  apply Forall_impl with (P := atRest).
  - intros s (Hc & Hi & _). unfold activeKind. rewrite Hc.
    repeat split; assumption.
  - apply H. unfold atRest. simpl. repeat split; lra.
Qed.

(** Soft frames, two of them flagged as beats, between animation
    frames. *)
Definition softPassage : list Event :=
  [ Audio (mkFrame 1 0.1 0.2 0.2 0.1 true);
    Animate 1;
    Audio (mkFrame 5 0.25 0.25 0.25 0.25 true);
    Animate 6;
    Audio (mkFrame 9 0 0.25 0 0 false) ].

Lemma quiet_input_keeps_scene_at_rest_witness :
  Forall (fun s =>
            crystal s = Some (init CrystalSphere.new)
            /\ activeKind s = Some idle
            /\ currentInstrument s = InstrumentClassifier.none)
         (run sampleExternals SceneView.new softPassage).
Proof.
  apply (quiet_input_keeps_scene_at_rest sampleExternals softPassage).
  repeat constructor; simpl; lra.
Defined.

(** *** The instrument label in the scene *)

(** The instrument shown after event [i] differs from the one before it,
    and event [i] is the animation frame at time [t]. *)
Definition instrument_changes_at
  (ext : Externals) (s : SceneView.State) (es : list Event)
  (i : nat) (t : Q) : Prop :=
  exists before after,
    nth_error (s :: run ext s es) i = Some before
    /\ nth_error (run ext s es) i = Some after
    /\ nth_error es i = Some (Animate t)
    /\ currentInstrument after <> currentInstrument before.

Lemma updateFromAudio_instrument
      (ext : Externals) (s : SceneView.State) (f : Frame) :
  instrumentClassifier (updateFromAudio ext s f) = instrumentClassifier s
  /\ currentInstrument (updateFromAudio ext s f) = currentInstrument s.
Proof.
  unfold updateFromAudio.
  destruct (crystal s); [| split; reflexivity].
  destruct (switchEffect _ _ _ _ _). split; reflexivity.
Qed.

(** The call [animate] makes to the classifier at time [t]. *)
Definition classifierCall (s : SceneView.State) (t : Q)
  : InstrumentClassifier.Call :=
  InstrumentClassifier.mkCall t (lastRms s) (lastLow s) (lastMid s)
                              (lastHigh s) (lastRms s >? 0.12).

Lemma animate_instrument (ext : Externals) (s : SceneView.State) (t : Q) :
  is3D s = true ->
  instrumentClassifier (animate ext s t)
  = fst (InstrumentClassifier.update (instrumentClassifier s)
                                     (classifierCall s t))
  /\ currentInstrument (animate ext s t)
     = snd (InstrumentClassifier.update (instrumentClassifier s)
                                        (classifierCall s t)).
Proof.
  intros H3d. unfold animate, classifierCall. rewrite H3d.
  destruct (InstrumentClassifier.update _ _). split; reflexivity.
Qed.

(** The label shown is the one the classifier holds, and the hold time
    is [h]. *)
Definition inSync (h : Q) (s : SceneView.State) : Prop :=
  currentInstrument s = InstrumentClassifier.current (instrumentClassifier s)
  /\ InstrumentClassifier.holdSeconds (instrumentClassifier s) = h.

Lemma inSync_step (ext : Externals) (h : Q) (s : SceneView.State) (e : Event) :
  inSync h s -> inSync h (step ext s e).
Proof.
  intros [Hl Hh]. destruct e as [f | t]; simpl.
  - destruct (updateFromAudio_instrument ext s f) as [Hc Hi].
    unfold inSync. now rewrite Hc, Hi.
  - destruct (is3D s) eqn:H3d.
    + destruct (animate_instrument ext s t H3d) as [Hc Hi].
      unfold inSync. rewrite Hc, Hi. split.
      * apply InstrumentClassifierProps.update_returns_current.
      * now rewrite InstrumentClassifierProps.update_holdSeconds.
    + unfold animate. rewrite H3d. now split.
Qed.

Lemma instrument_step_cases
      (ext : Externals) (h : Q) (s : SceneView.State) (e : Event) :
  inSync h s ->
  (currentInstrument (step ext s e) = currentInstrument s
   /\ InstrumentClassifier.lastSwitchAt (instrumentClassifier (step ext s e))
      = InstrumentClassifier.lastSwitchAt (instrumentClassifier s))
  \/ (InstrumentClassifier.lastSwitchAt (instrumentClassifier (step ext s e))
      = eventTime e
      /\ h <= eventTime e
              - InstrumentClassifier.lastSwitchAt (instrumentClassifier s)).
Proof.
  intros [Hl Hh]. destruct e as [f | t]; simpl.
  - left. destruct (updateFromAudio_instrument ext s f) as [Hc Hi].
    now rewrite Hc, Hi.
  - destruct (is3D s) eqn:H3d.
    + destruct (animate_instrument ext s t H3d) as [Hc Hi].
      rewrite Hc, Hi.
      rewrite InstrumentClassifierProps.update_returns_current.
      destruct (InstrumentClassifierProps.update_cases
                  (instrumentClassifier s) (classifierCall s t))
        as [[Hsame Hstamp] | [Hstamp Hgap]].
      * left. split; [now rewrite Hsame, Hl | exact Hstamp].
      * right. rewrite <- Hh. exact (conj Hstamp Hgap).
    + left. unfold animate. rewrite H3d. now split.
Qed.

(** X27.  In the scene the instrument label is held too: over any
    sequence of audio and animation frames, two changes of the label
    shown are at least the hold time of the classifier (5 s) apart on
    the animation clock, and only animation frames change it. *)
Theorem scene_instrument_hold
        (ext : Externals) (es : list Event) (s : SceneView.State)
        (i j : nat) (ti tj : Q) :
  currentInstrument s
  = InstrumentClassifier.current (instrumentClassifier s) ->
  0 <= InstrumentClassifier.holdSeconds (instrumentClassifier s) ->
  (i < j)%nat ->
  instrument_changes_at ext s es i ti ->
  instrument_changes_at ext s es j tj ->
  InstrumentClassifier.holdSeconds (instrumentClassifier s) <= tj - ti.
Proof.
  intros Hsync Hhold Hij Hi Hj.
  set (h := InstrumentClassifier.holdSeconds (instrumentClassifier s)) in *.
  apply (HoldTimer.changes_spaced
           SceneView.State Event InstrumentClassifier.Instrument
           (step ext) currentInstrument
           (fun x => InstrumentClassifier.lastSwitchAt (instrumentClassifier x))
           eventTime (inSync h) (fun d => h <= d))
    with (xs := es) (s := s) (i := i) (j := j).
  - intros d Hd. lra.
  - intros d d' Hd Hdd'. lra.
  - intros x e. apply inSync_step.
  - intros x e. apply instrument_step_cases.
  - split; [exact Hsync | reflexivity].
  - exact Hij.
  - destruct Hi as (b & a & Hb & Ha & He & Hne).
    exists b, a, (Animate ti). rewrite <- scene_run_states.
    repeat split; assumption.
  - destruct Hj as (b & a & Hb & Ha & He & Hne).
    exists b, a, (Animate tj). rewrite <- scene_run_states.
    repeat split; assumption.
Qed.

(** A bass line recognised at 5 s, then a guitar recognised at 11 s. *)
Definition bass_then_guitar_scene : list Event :=
  [ Audio (mkFrame 1 0.3 0.6 0.2 0.1 false);
    Animate 5;
    Audio (mkFrame 6 0.3 0.1 0.7 0.1 false);
    Animate 11 ].

Example bass_then_guitar_scene_labels :
  map currentInstrument
      (run sampleExternals SceneView.new bass_then_guitar_scene)
  = [InstrumentClassifier.none; InstrumentClassifier.bass;
     InstrumentClassifier.bass; InstrumentClassifier.guitar].
Proof. lazy. reflexivity. Qed.

Lemma scene_instrument_hold_witness :
  InstrumentClassifier.holdSeconds (instrumentClassifier SceneView.new)
  <= 11 - 5.
Proof.
  refine (scene_instrument_hold sampleExternals bass_then_guitar_scene
                                SceneView.new 1 3 5 11 _ _ _ _ _).
  - reflexivity.
  - simpl. lra.
  - lia.
  - eexists _, _.
    split; [reflexivity |]. split; [reflexivity |]. split; [reflexivity |].
    lazy. discriminate.
  - eexists _, _.
    split; [reflexivity |]. split; [reflexivity |]. split; [reflexivity |].
    lazy. discriminate.
Defined.

End SceneViewMore.

(** ** Presets *)

Module PresetsProps.
Import Stdlib.Strings.String.
Import Presets.

(** X23.  [getPresetById] always answers with a preset of the table: the
    one carrying the id when there is one (the ids are distinct, so each
    preset is found by its own id), and the first preset, 'aurora',
    for [null], [undefined] and every unknown id. *)
Theorem getPresetById_lookup :
  (forall p, In p PRESETS -> getPresetById (Some (id p)) = p)
  /\ (forall key, In (getPresetById key) PRESETS)
  /\ (forall key,
         (forall p, In p PRESETS -> Some (id p) <> key) ->
         getPresetById key = mkPreset "aurora" "Aurora" aurora 0.6 700).
Proof.
  split; [| split].
  - intros p [<- | [<- | [<- | []]]]; reflexivity.
  - intros key. unfold getPresetById.
    destruct (find _ PRESETS) as [p |] eqn:E.
    + apply find_some in E. apply E.
    + left. reflexivity.
  - intros key Hnone. unfold getPresetById.
    destruct (find _ PRESETS) as [p |] eqn:E; [| reflexivity].
    apply find_some in E. destruct E as [Hin Hp].
    destruct key as [k |]; [| discriminate].
    apply String.eqb_eq in Hp. exfalso.
    apply (Hnone p Hin). now rewrite Hp.
Qed.

End PresetsProps.
